(** * bot.js: the response-resolution pipeline of the WhatsApp relay bot

    A shallow embedding of [src/bot.js]: the message handler registered with
    [client.on('message', ...)], the three store helpers [getUserProfile],
    [updateConversationHistory], [getConversationHistory], and the resolver
    [getBotResponse].

    - JavaScript strings are sequences of UTF-16 code units ([list N]).
    - The two MongoDB collections are lists of documents in natural
      (insertion) order; [findOne] returns the first matching document.
    - [async]/[await] code is written in a state-and-exception monad over the
      [World]: a rejected promise that is awaited is a thrown exception.
    - Everything the process does that is visible outside it (driver calls,
      the completion request, log lines, the reply) is appended to a
      chronological [trace]. *)

From Stdlib Require Import String Ascii List NArith ZArith Bool Arith Lia.
Import ListNotations.

Set Implicit Arguments.

(** ** JavaScript strings *)

Module JS.

Definition codeunit := N.
Definition jsstring := list codeunit.

(** An ASCII literal as a sequence of code units. *)
Definition lit (s : string) : jsstring :=
  map N_of_ascii (list_ascii_of_string s).
Arguments lit s%_string.

(** [a === b] on strings. *)
Fixpoint strictEq (a b : jsstring) : bool :=
  match a, b with
  | [], [] => true
  | x :: a', y :: b' => N.eqb x y && strictEq a' b'
  | _, _ => false
  end.

(** ECMAScript [WhiteSpace] and [LineTerminator] code points, the characters
    [String.prototype.trim] strips.  All of them are single code units. *)
Definition isWhiteSpace (c : codeunit) : bool :=
  (N.eqb c 9 || N.eqb c 10 || N.eqb c 11 || N.eqb c 12 || N.eqb c 13
   || N.eqb c 32 || N.eqb c 160 || N.eqb c 5760
   || (N.leb 8192 c && N.leb c 8202)
   || N.eqb c 8232 || N.eqb c 8233 || N.eqb c 8239 || N.eqb c 8287
   || N.eqb c 12288 || N.eqb c 65279)%bool.

Fixpoint trimStart (s : jsstring) : jsstring :=
  match s with
  | [] => []
  | c :: s' => if isWhiteSpace c then trimStart s' else s
  end.

Definition trimEnd (s : jsstring) : jsstring := rev (trimStart (rev s)).

(** [s.trim()] *)
Definition trim (s : jsstring) : jsstring := trimEnd (trimStart s).

(** [s.startsWith(pat)], used by [includes]. *)
Fixpoint startsWith (s pat : jsstring) {struct pat} : bool :=
  match pat, s with
  | [], _ => true
  | _ :: _, [] => false
  | p :: pat', c :: s' => N.eqb c p && startsWith s' pat'
  end.

(** [s.includes(pat)]: [pat] occurs in [s] as a contiguous run of code units. *)
Fixpoint includes (s pat : jsstring) : bool :=
  startsWith s pat ||
  match s with
  | [] => false
  | _ :: s' => includes s' pat
  end.

(** [parts.join(sep)] *)
Fixpoint join (sep : jsstring) (parts : list jsstring) : jsstring :=
  match parts with
  | [] => []
  | [p] => p
  | p :: rest => p ++ sep ++ join sep rest
  end.

(** [arr.slice(-n)]: the last [n] elements, all of them when there are fewer. *)
Definition sliceLast {A} (n : nat) (arr : list A) : list A :=
  skipn (length arr - n) arr.

(** Lowercasing of an ASCII code unit: [A]..[Z] go to [a]..[z]. *)
Definition asciiLower (c : codeunit) : codeunit :=
  if (N.leb 65 c && N.leb c 90)%bool then (c + 32)%N else c.

Section ToLowerCase.

(** [String.prototype.toLowerCase] follows the Unicode default case
    conversion.  On ASCII code units it is [asciiLower], whatever the
    context.  The mapping of the other code units comes from the Unicode
    character database of the engine, which is not part of the program: it
    is a parameter, given the code units before and after the one being
    mapped (surrogate pairs and the final-sigma rule need the context), and
    it may yield any number of code units. *)
Variable unicodeLower : jsstring -> codeunit -> jsstring -> jsstring.

Fixpoint lowerFrom (before s : jsstring) : jsstring :=
  match s with
  | [] => []
  | c :: after =>
      (if N.ltb c 128 then [asciiLower c] else unicodeLower before c after)
        ++ lowerFrom (before ++ [c]) after
  end.

(** [s.toLowerCase()] *)
Definition toLowerCase (s : jsstring) : jsstring := lowerFrom [] s.

End ToLowerCase.

End JS.
Import JS.

(** ** Documents, events and the world *)

(** The two values the program passes as [role]: ['Human'] and ['Bot']. *)
Inductive Role := Human | Bot.

Definition roleName (r : Role) : jsstring :=
  match r with
  | Human => lit "Human"
  | Bot => lit "Bot"
  end.

(** An element of a conversation's [history] array:
    [{ message, role, timestamp }]. *)
Record Turn := mkTurn {
  message : jsstring;
  role : Role;
  timestamp : Z
}.

(** A document of the [conversations] collection: [{ sender, history }]. *)
Record Conversation := mkConversation {
  conv_sender : jsstring;
  history : list Turn
}.

(** A document of the [users] collection:
    [{ sender, preferences, favoriteResponses, conversationHistory }]. *)
Record User := mkUser {
  sender : jsstring;
  preferences : list (jsstring * jsstring);
  favoriteResponses : list jsstring;
  conversationHistory : list Turn
}.

(** The transport's message object: [msg.from] and [msg.body]. *)
Record Message := mkMessage {
  msg_from : jsstring;
  msg_body : jsstring
}.

(** The response object of [openai.chat.completions.create]:
    [response.choices[i].message.content], where [content] may be [null]. *)
Record Choice := mkChoice { content : option jsstring }.
Record ChatCompletion := mkChatCompletion { choices : list Choice }.

(** How the promise returned by [create] settles; a rejection carries the
    rendering of its error as a string. *)
Inductive ApiOutcome :=
| Rejected (error : jsstring)
| Resolved (response : ChatCompletion).

Inductive Level := Info | Error.

(** What the process does that is visible outside it, in the order it does
    it.  A driver call is recorded when it is issued, whether or not it
    succeeds. *)
Inductive Event :=
| EvLog (level : Level) (text : jsstring)
| EvUsersFindOne (s : jsstring)
| EvUsersInsertOne (u : User)
| EvConvUpdateOne (s : jsstring) (m : jsstring) (r : Role)
| EvConvFindOne (s : jsstring)
| EvCompletion (prompt : jsstring)
| EvReply (msg : Message) (text : jsstring).

(** The state the handler runs in: the two collections, the number of
    interactions with the environment so far, and the trace. *)
Record World := mkWorld {
  usersCollection : list User;
  conversationsCollection : list Conversation;
  ticks : nat;
  trace : list Event
}.

(** The environment: what the clock, the database server and the completion
    service answer at the [n]-th interaction. *)
Record Env := mkEnv {
  dateNow : nat -> Z;
  storeFails : nat -> bool;
  openaiCreate : nat -> jsstring -> ApiOutcome
}.

(** ** The monad of [async] functions *)

(** The only exception that escapes an [await] in this program: a rejected
    driver call. *)
Inductive Exception := StorageError.

Inductive Outcome (A : Type) :=
| Returned (a : A)
| Thrown (e : Exception).
Arguments Thrown {A} e.

Definition M (A : Type) := World -> World * Outcome A.

Definition ret {A} (a : A) : M A := fun w => (w, Returned a).

Definition throw {A} (e : Exception) : M A := fun w => (w, Thrown e).

Definition bind {A B} (m : M A) (k : A -> M B) : M B :=
  fun w =>
    match m w with
    | (w', Returned a) => k a w'
    | (w', Thrown e) => (w', Thrown e)
    end.

Notation "x <- m ;; k" := (bind m (fun x => k))
  (at level 61, m at next level, right associativity).
Notation "m ;; k" := (bind m (fun _ => k))
  (at level 61, right associativity).

Definition emit (ev : Event) : M unit :=
  fun w => (mkWorld (usersCollection w) (conversationsCollection w) (ticks w)
                    (trace w ++ [ev]), Returned tt).

Definition interact : M nat :=
  fun w => (mkWorld (usersCollection w) (conversationsCollection w)
                    (S (ticks w)) (trace w), Returned (ticks w)).

Definition readUsers : M (list User) :=
  fun w => (w, Returned (usersCollection w)).

Definition writeUsers (us : list User) : M unit :=
  fun w => (mkWorld us (conversationsCollection w) (ticks w) (trace w),
            Returned tt).

Definition readConversations : M (list Conversation) :=
  fun w => (w, Returned (conversationsCollection w)).

Definition writeConversations (cs : list Conversation) : M unit :=
  fun w => (mkWorld (usersCollection w) cs (ticks w) (trace w), Returned tt).

(** ** The program *)

Definition newline : jsstring := [10%N].

(** The fixed replies, as the source writes them; the emoji are surrogate
    pairs. *)
Definition greetingReply : jsstring :=
  lit "Hello! How can I assist you today? " ++ [55357%N; 56842%N].

Definition whoAreYouReply : jsstring :=
  lit "I'm a bot created by Patrick Attankurugu. But enough about me, what's on your mind today?".

Definition patrickReply : jsstring :=
  lit "Patrick Attankurugu is a great guy, but let's not make this all about him. What's up with you? "
  ++ [55357%N; 56841%N].

Definition fallbackReply : jsstring :=
  lit "Oops, something went wrong there! But hey, I'm still awesome, right? "
  ++ [55357%N; 56846%N].

(** The template literal of [getBotResponse], around [history.join("\n")]. *)
Definition buildPrompt (history : list jsstring) : jsstring :=
  newline ++ lit "    Here's the conversation history:" ++
  newline ++ lit "    " ++ join newline history ++
  newline ++
  newline ++ lit "    Respond to the last message. Be fun, sarcastic, and engaging in your response." ++
  newline ++ lit "    Keep it concise (1-2 sentences max)." ++
  newline ++ lit "    Avoid big words, use simple, everyday English.".

(** The [entry => `${entry.role}: ${entry.message}`] callback. *)
Definition formatEntry (entry : Turn) : jsstring :=
  roleName (role entry) ++ lit ": " ++ message entry.

(** [updateOne({ sender }, { $push: { history: entry } }, { upsert: true })]
    on the documents of the collection: the first document of the sender
    gets the entry at the end of its [history]; without one, a document with
    that single entry is inserted. *)
Fixpoint updateOnePush (s : jsstring) (entry : Turn)
  (docs : list Conversation) : list Conversation :=
  match docs with
  | [] => [mkConversation s [entry]]
  | d :: rest =>
      if strictEq (conv_sender d) s
      then mkConversation (conv_sender d) (history d ++ [entry]) :: rest
      else d :: updateOnePush s entry rest
  end.

(** The [.then] callback: [response.choices[0].message.content.trim()].
    Reading a property of [undefined] or of [null] throws a [TypeError],
    rendered as V8 does. *)
Definition thenCallback (response : ChatCompletion) : jsstring + jsstring :=
  match choices response with
  | [] =>
      inr (lit "TypeError: Cannot read properties of undefined (reading 'message')")
  | c :: _ =>
      match content c with
      | None =>
          inr (lit "TypeError: Cannot read properties of null (reading 'trim')")
      | Some text => inl (trim text)
      end
  end.

(** The promise chain [create(...).then(...)]: the reply, or the rendering
    of the error that reaches [.catch]. *)
Definition settle (o : ApiOutcome) : jsstring + jsstring :=
  match o with
  | Rejected error => inr error
  | Resolved response => thenCallback response
  end.

Section Bot.

Variable unicodeLower : jsstring -> codeunit -> jsstring -> jsstring.
Variable env : Env.

Definition logger_info (text : jsstring) : M unit := emit (EvLog Info text).

Definition logger_error (text : jsstring) : M unit := emit (EvLog Error text).

(** [new Date()] *)
Definition newDate : M Z :=
  n <- interact ;; ret (dateNow env n).

(** An awaited call of the MongoDB driver: it is issued, and then either
    rejects or performs [op]. *)
Definition driverCall {A} (ev : Event) (op : M A) : M A :=
  emit ev ;;
  n <- interact ;;
  if storeFails env n then throw StorageError else op.

Definition users_findOne (s : jsstring) : M (option User) :=
  driverCall (EvUsersFindOne s)
    (us <- readUsers ;;
     ret (find (fun u => strictEq (sender u) s) us)).

Definition users_insertOne (u : User) : M unit :=
  driverCall (EvUsersInsertOne u)
    (us <- readUsers ;; writeUsers (us ++ [u])).

Definition conversations_updateOne (s : jsstring) (entry : Turn) : M unit :=
  driverCall (EvConvUpdateOne s (message entry) (role entry))
    (cs <- readConversations ;;
     writeConversations (updateOnePush s entry cs)).

Definition conversations_findOne (s : jsstring) : M (option Conversation) :=
  driverCall (EvConvFindOne s)
    (cs <- readConversations ;;
     ret (find (fun c => strictEq (conv_sender c) s) cs)).

(** [openai.chat.completions.create({ model, messages })] with the promise
    chain on it; the chain never rejects. *)
Definition openai_create (prompt : jsstring) : M ApiOutcome :=
  emit (EvCompletion prompt) ;;
  n <- interact ;;
  ret (openaiCreate env n prompt).

Definition msg_reply (msg : Message) (text : jsstring) : M unit :=
  emit (EvReply msg text).

Definition getUserProfile (s : jsstring) : M User :=
  found <- users_findOne s ;;
  match found with
  | Some user => ret user
  | None =>
      let user := mkUser s [] [] [] in
      users_insertOne user ;;
      ret user
  end.

Definition updateConversationHistory (s : jsstring) (m : jsstring) (r : Role)
  : M unit :=
  now <- newDate ;;
  conversations_updateOne s (mkTurn m r now).

Definition getConversationHistory (s : jsstring) : M (list jsstring) :=
  conversation <- conversations_findOne s ;;
  match conversation with
  | Some c => ret (map formatEntry (sliceLast 20 (history c)))
  | None => ret []
  end.

Definition getBotResponse (s : jsstring) (incomingMsg : jsstring)
  : M jsstring :=
  user <- getUserProfile s ;;
  fetched <- getConversationHistory s ;;
  let history := fetched ++ [lit "Human: " ++ incomingMsg] in
  if strictEq (toLowerCase unicodeLower incomingMsg) (lit "hi") then
    let response := greetingReply in
    updateConversationHistory s response Bot ;;
    ret response
  else if includes (toLowerCase unicodeLower incomingMsg) (lit "who are you") then
    let response := whoAreYouReply in
    updateConversationHistory s response Bot ;;
    ret response
  else if includes (toLowerCase unicodeLower incomingMsg)
                   (lit "tell me more about patrick") then
    let response := patrickReply in
    updateConversationHistory s response Bot ;;
    ret response
  else
    let prompt := buildPrompt history in
    settled <- openai_create prompt ;;
    response <-
      match settle settled with
      | inl reply => ret reply
      | inr error =>
          logger_error (lit "OpenAI API error: " ++ error) ;;
          ret fallbackReply
      end ;;
    updateConversationHistory s response Bot ;;
    ret response.

(** The [client.on('message', async msg => ...)] handler. *)
Definition onMessage (msg : Message) : M unit :=
  let s := msg_from msg in
  let incomingMsg := trim (msg_body msg) in
  logger_info (lit "Received message from " ++ s ++ lit ": " ++ incomingMsg) ;;
  updateConversationHistory s incomingMsg Human ;;
  botResponse <- getBotResponse s incomingMsg ;;
  msg_reply msg botResponse ;;
  logger_info (lit "Sent response to " ++ s ++ lit ": " ++ botResponse).

(** The handler on the messages of a list, one after the other: each run
    ends (returning, or with an unhandled rejection) before the next
    begins, and leaves the collections as it has changed them. *)
Definition deliver (msgs : list Message) (w : World) : World :=
  fold_left (fun w' msg => fst (onMessage msg w')) msgs w.

End Bot.

(** ** Observations on worlds and traces *)

(** No call of the MongoDB driver rejects. *)
Definition NoStoreFailure (env : Env) : Prop :=
  forall n, storeFails env n = false.

(** The document [findOne({ sender })] selects in each collection. *)
Definition profileOf (s : jsstring) (w : World) : option User :=
  find (fun u => strictEq (sender u) s) (usersCollection w).

Definition recordOf (s : jsstring) (w : World) : option Conversation :=
  find (fun c => strictEq (conv_sender c) s) (conversationsCollection w).

(** The profile a load of the sender's profile has to insert: none when the
    sender has one. *)
Definition missingProfile (s : jsstring) (w : World) : list User :=
  match profileOf s w with
  | Some _ => []
  | None => [mkUser s [] [] []]
  end.

(** The turns of the sender's conversation record, none without a record. *)
Definition historyOf (s : jsstring) (w : World) : list Turn :=
  match recordOf s w with
  | Some c => history c
  | None => []
  end.

(** All the documents of a sender in each collection. *)
Definition profilesOf (s : jsstring) (w : World) : list User :=
  filter (fun u => strictEq (sender u) s) (usersCollection w).

Definition recordsOf (s : jsstring) (w : World) : list Conversation :=
  filter (fun c => strictEq (conv_sender c) s) (conversationsCollection w).

(** The events a computation adds to the trace of the world it starts in. *)
Definition emittedBy {A} (m : M A) (w : World) : list Event :=
  skipn (length (trace w)) (trace (fst (m w))).

Definition repliesIn (evs : list Event) : list jsstring :=
  flat_map (fun ev => match ev with EvReply _ text => [text] | _ => [] end) evs.

Definition promptsIn (evs : list Event) : list jsstring :=
  flat_map (fun ev => match ev with EvCompletion p => [p] | _ => [] end) evs.

Definition logsIn (evs : list Event) : list (Level * jsstring) :=
  flat_map (fun ev => match ev with EvLog l text => [(l, text)] | _ => [] end)
           evs.

Definition isDriverCall (ev : Event) : bool :=
  match ev with
  | EvUsersFindOne _ | EvUsersInsertOne _
  | EvConvUpdateOne _ _ _ | EvConvFindOne _ => true
  | _ => false
  end.

Definition isProfileLoad (ev : Event) : bool :=
  match ev with
  | EvUsersFindOne _ => true
  | _ => false
  end.

Definition isHumanAppend (ev : Event) : bool :=
  match ev with
  | EvConvUpdateOne _ _ Human => true
  | _ => false
  end.

Definition isContextFetch (ev : Event) : bool :=
  match ev with
  | EvConvFindOne _ => true
  | _ => false
  end.

(** Position of the first event that satisfies [p]. *)
Fixpoint firstIndex (p : Event -> bool) (evs : list Event) : option nat :=
  match evs with
  | [] => None
  | ev :: rest =>
      if p ev then Some 0
      else match firstIndex p rest with
           | Some i => Some (S i)
           | None => None
           end
  end.

(** The first [p] event comes strictly before the first [q] event. *)
Definition happensBefore (p q : Event -> bool) (evs : list Event) : Prop :=
  exists i j, firstIndex p evs = Some i /\ firstIndex q evs = Some j /\ i < j.

(** The three [if] tests of [getBotResponse] on the lowercased message, read
    as the rule matcher of the design: the reply of the first rule that
    matches, in the order of the source. *)
Definition matchRule (lowered : jsstring) : option jsstring :=
  if strictEq lowered (lit "hi") then Some greetingReply
  else if includes lowered (lit "who are you") then Some whoAreYouReply
  else if includes lowered (lit "tell me more about patrick")
       then Some patrickReply
  else None.

(** A code unit is ["h"] or ["H"], resp. ["i"] or ["I"]. *)
Definition isLetterH (c : codeunit) : Prop := c = 104%N \/ c = 72%N.
Definition isLetterI (c : codeunit) : Prop := c = 105%N \/ c = 73%N.

(** What is compared of two turns when the instants do not matter. *)
Definition turnView (t : Turn) : Role * jsstring := (role t, message t).

(** The turns that processing [bodies] in order, with [replies] as answers,
    adds to a record: a Human turn with the trimmed body, then a Bot turn
    with the reply, per message. *)
Fixpoint exchange (bodies replies : list jsstring) : list (Role * jsstring) :=
  match bodies, replies with
  | b :: bodies', r :: replies' =>
      (Human, trim b) :: (Bot, r) :: exchange bodies' replies'
  | _, _ => []
  end.

(** Append-only growth of the [conversations] collection: every document
    keeps its place and its sender, and its turns are a prefix of the turns
    it has afterwards. *)
Fixpoint ExtendsRecords (before after : list Conversation) : Prop :=
  match before, after with
  | [], _ => True
  | _ :: _, [] => False
  | c :: before', c' :: after' =>
      conv_sender c' = conv_sender c
      /\ (exists added, history c' = history c ++ added)
      /\ ExtendsRecords before' after'
  end.

(** Append-only growth of a world: no document of either collection is
    removed or changed, but for turns added at the end of a history. *)
Definition Extends (w w' : World) : Prop :=
  (exists added, usersCollection w' = usersCollection w ++ added)
  /\ ExtendsRecords (conversationsCollection w) (conversationsCollection w').

(** The step order of the design's state machine, on the events of one run
    of the handler: the profile is loaded before the Human turn is
    appended, and the recent history is fetched only when no rule
    matches. *)
Definition DesignStepOrder
  (unicodeLower : jsstring -> codeunit -> jsstring -> jsstring)
  (env : Env) (msg : Message) (w : World) : Prop :=
  let evs := emittedBy (onMessage unicodeLower env msg) w in
  happensBefore isProfileLoad isHumanAppend evs
  /\ (matchRule (toLowerCase unicodeLower (trim (msg_body msg))) <> None ->
      existsb isContextFetch evs = false).

(** The storage-failure policy of the design, on one run of the handler
    that a rejected driver call ends: no reply is sent, and a log line is
    written after the call that failed. *)
Definition FailureIsLogged
  (unicodeLower : jsstring -> codeunit -> jsstring -> jsstring)
  (env : Env) (msg : Message) (w : World) : Prop :=
  let evs := emittedBy (onMessage unicodeLower env msg) w in
  snd (onMessage unicodeLower env msg w) = Thrown StorageError ->
  repliesIn evs = []
  /\ exists before call l text after,
       evs = before ++ call :: after
       /\ isDriverCall call = true
       /\ existsb isDriverCall after = false
       /\ In (EvLog l text) after.

(** The gateway step of a run: nothing when a rule matches, else the
    completion request with the prompt built from the fetched history and
    the message, and the log line when the request fails. *)
Definition GatewayStep
  (unicodeLower : jsstring -> codeunit -> jsstring -> jsstring) (env : Env)
  (m : jsstring) (fetched : list jsstring)
  (reply : jsstring) (gw : list Event) : Prop :=
  match matchRule (toLowerCase unicodeLower m) with
  | Some r => reply = r /\ gw = []
  | None =>
      exists n,
      let prompt := buildPrompt (fetched ++ [lit "Human: " ++ m]) in
      match settle (openaiCreate env n prompt) with
      | inl text => reply = text /\ gw = [EvCompletion prompt]
      | inr error =>
          reply = fallbackReply
          /\ gw = [EvCompletion prompt;
                   EvLog Error (lit "OpenAI API error: " ++ error)]
      end
  end.

(** A computation that sends no reply and that, when it throws, has just
    issued the driver call that was rejected: that call is its last event
    and its last interaction with the environment. *)
Definition StopsAtFailure (env : Env) {A} (m : M A) : Prop :=
  forall w,
  exists evs,
    trace (fst (m w)) = trace w ++ evs
    /\ repliesIn evs = []
    /\ (forall e, snd (m w) = Thrown e ->
        exists before call,
          evs = before ++ [call]
          /\ isDriverCall call = true
          /\ storeFails env (pred (ticks (fst (m w)))) = true).

(** A computation all of whose events satisfy [allowed], whatever its
    outcome. *)
Definition EmitsOnly (allowed : Event -> bool) {A} (m : M A) : Prop :=
  forall w,
  exists evs,
    trace (fst (m w)) = trace w ++ evs /\ forallb allowed evs = true.

Definition notCompletion (ev : Event) : bool :=
  match ev with
  | EvCompletion _ => false
  | _ => true
  end.

(** The interactions at which a run of the handler for [msg] in [w] calls
    the MongoDB driver, when every call is accepted: the [updateOne] of the
    Human turn, the [findOne] of the profile, the [insertOne] when the
    sender has no profile, the [findOne] of the record, and the [updateOne]
    of the Bot turn.  The readings of the clock and, when no rule matches,
    the completion request take the interactions in between. *)
Definition storeCallTicks
  (unicodeLower : jsstring -> codeunit -> jsstring -> jsstring)
  (msg : Message) (w : World) : list nat :=
  let s := msg_from msg in
  let t := ticks w in
  let p := length (missingProfile s w) in
  let g := match matchRule (toLowerCase unicodeLower (trim (msg_body msg))) with
           | Some _ => 0
           | None => 1
           end in
  [t + 1; t + 2]
    ++ map (fun _ => t + 3) (missingProfile s w)
    ++ [t + 3 + p; t + 5 + p + g].

(** The gateway step of a run whose completion request, if any, is the
    interaction [n]. *)
Definition GatewayStepAt
  (unicodeLower : jsstring -> codeunit -> jsstring -> jsstring) (env : Env)
  (m : jsstring) (fetched : list jsstring) (n : nat)
  (reply : jsstring) (gw : list Event) : Prop :=
  match matchRule (toLowerCase unicodeLower m) with
  | Some r => reply = r /\ gw = []
  | None =>
      let prompt := buildPrompt (fetched ++ [lit "Human: " ++ m]) in
      match settle (openaiCreate env n prompt) with
      | inl text => reply = text /\ gw = [EvCompletion prompt]
      | inr error =>
          reply = fallbackReply
          /\ gw = [EvCompletion prompt;
                   EvLog Error (lit "OpenAI API error: " ++ error)]
      end
  end.

(** ** Further observations *)

(** The replies sent to the messages of one sender. *)
Definition repliesTo (s : jsstring) (evs : list Event) : list jsstring :=
  flat_map (fun ev =>
              match ev with
              | EvReply msg text =>
                  if strictEq (msg_from msg) s then [text] else []
              | _ => []
              end) evs.

(** No sender has two profiles or two conversation records. *)
Definition OneDocumentPerSender (w : World) : Prop :=
  forall s, length (profilesOf s w) <= 1 /\ length (recordsOf s w) <= 1.

(** A clock that never goes back between two readings. *)
Definition MonotoneClock (env : Env) : Prop :=
  forall a b, a <= b -> (dateNow env a <= dateNow env b)%Z.

Fixpoint nonDecreasing (ts : list Z) : Prop :=
  match ts with
  | a :: (b :: _) as rest => (a <= b)%Z /\ nonDecreasing rest
  | _ => True
  end.

(** In every record the turns are in the order of their instants, and none
    is later than the next reading of the clock. *)
Definition Chronological (env : Env) (w : World) : Prop :=
  forall c, In c (conversationsCollection w) ->
    nonDecreasing (map timestamp (history c))
    /\ Forall (fun t => (timestamp t <= dateNow env (ticks w))%Z) (history c).

Definition isAscii (c : codeunit) : bool := N.ltb c 128.

(** ** Concrete environments and inputs *)

(** An engine table that leaves every non-ASCII code unit as it is. *)
Definition keepNonAscii : jsstring -> codeunit -> jsstring -> jsstring :=
  fun _ c _ => [c].

(** The store never fails; the completion service answers [" Sure. "]. *)
Definition calmEnv : Env :=
  mkEnv (fun n => Z.of_nat n) (fun _ => false)
        (fun _ _ => Resolved (mkChatCompletion [mkChoice (Some (lit " Sure. "))])).

(** The store never fails; the completion request times out. *)
Definition timeoutEnv : Env :=
  mkEnv (fun n => Z.of_nat n) (fun _ => false)
        (fun _ _ => Rejected (lit "Error: Request timed out.")).

(** The first driver call (interaction number 1, after the clock was read)
    is rejected. *)
Definition brokenStoreEnv : Env :=
  mkEnv (fun n => Z.of_nat n) (fun n => Nat.eqb n 1)
        (fun _ _ => Rejected (lit "Error: Request timed out.")).

(** The second driver call (interaction number 2, the lookup of the
    profile) is rejected. *)
Definition profileStoreDownEnv : Env :=
  mkEnv (fun n => Z.of_nat n) (fun n => Nat.eqb n 2)
        (fun _ _ => Rejected (lit "Error: Request timed out.")).

Definition emptyWorld : World := mkWorld [] [] 0 [].

Definition alice : jsstring := lit "233200000000@c.us".

Definition hiMessage : Message := mkMessage alice (lit " Hi ").

Definition helloMessage : Message := mkMessage alice (lit "hello there").

Definition priorityMessage : Message :=
  mkMessage alice (lit "Who are you? Tell me more about Patrick").

Definition bob : jsstring := lit "233500000000@c.us".

Definition bobMessage : Message := mkMessage bob (lit "what's up?").

Definition blankMessage : Message := mkMessage alice [32; 9; 10; 160]%N.

Definition shoutMessage : Message :=
  mkMessage alice (lit "hey, WHO ARE YOU really?").

(** * Properties *)

(** ** Strings *)

Lemma strictEq_true_iff (a b : jsstring) : strictEq a b = true <-> a = b.
Proof.
  revert b; induction a as [|x a IH]; intros [|y b]; simpl;
    try (split; [discriminate | congruence ]); [tauto|].
  rewrite andb_true_iff, N.eqb_eq, IH. split.
  - intros [-> ->]; reflexivity.
  - intros H; injection H; auto.
Qed.

Lemma strictEq_refl (a : jsstring) : strictEq a a = true.
Proof. apply strictEq_true_iff; reflexivity. Qed.

Lemma trimStart_whitespace (ws s : jsstring) :
  forallb isWhiteSpace ws = true -> trimStart (ws ++ s) = trimStart s.
Proof.
  induction ws as [|c ws IH]; simpl; [reflexivity|].
  intros H; apply andb_true_iff in H as [Hc Hws].
  rewrite Hc; auto.
Qed.

Lemma forallb_rev {A} (p : A -> bool) (l : list A) :
  forallb p (rev l) = forallb p l.
Proof.
  induction l as [|x l IH]; simpl; [reflexivity|].
  rewrite forallb_app, IH; simpl. rewrite andb_true_r, andb_comm; reflexivity.
Qed.

(** Trimming removes the whitespace around a text that neither begins nor
    ends with whitespace. *)
Lemma trim_surrounded (ws1 ws2 mid : jsstring) (a b : codeunit) :
  forallb isWhiteSpace ws1 = true -> forallb isWhiteSpace ws2 = true ->
  isWhiteSpace a = false -> isWhiteSpace b = false ->
  trim (ws1 ++ (a :: mid ++ [b]) ++ ws2) = a :: mid ++ [b].
Proof.
  intros H1 H2 Ha Hb. unfold trim, trimEnd.
  assert (R : forall l : jsstring, rev (b :: rev l) = l ++ [b])
    by (intros l; simpl; rewrite rev_involutive; reflexivity).
  rewrite trimStart_whitespace by assumption.
  simpl. rewrite Ha.
  change (a :: (mid ++ [b]) ++ ws2) with ((a :: mid ++ [b]) ++ ws2).
  rewrite rev_app_distr, trimStart_whitespace
    by (rewrite forallb_rev; assumption).
  change (a :: mid ++ [b]) with ((a :: mid) ++ [b]).
  rewrite rev_app_distr.
  change (rev [b] ++ rev (a :: mid)) with (b :: rev (a :: mid)).
  cbn [trimStart]. rewrite Hb. apply R.
Qed.

Lemma includes_occurs (s pat : jsstring) :
  includes s pat = true <-> exists a b, s = a ++ pat ++ b.
Proof.
  assert (SW : forall p t, startsWith t p = true <-> exists b, t = p ++ b).
  { induction p as [|x p IH]; intros t; simpl.
    - split; [intros _; exists t; reflexivity | reflexivity].
    - destruct t as [|c t].
      + split; [discriminate | intros [b Hb]; discriminate].
      + rewrite andb_true_iff, N.eqb_eq, IH. split.
        * intros [-> [b ->]]. exists b; reflexivity.
        * intros [b Hb]. injection Hb as -> ->. eauto. }
  induction s as [|c s IH]; simpl.
  - rewrite orb_false_r, SW. split.
    + intros [b Hb]. exists [], b. assumption.
    + intros [a [b Hb]]. destruct a; [eauto|discriminate].
  - rewrite orb_true_iff, SW, IH. split.
    + intros [[b Hb] | [a [b Hb]]].
      * exists [], b. assumption.
      * exists (c :: a), b. simpl. congruence.
    + intros [[|x a] [b Hb]]; simpl in Hb.
      * left; eauto.
      * right. injection Hb as -> ->. eauto.
Qed.

(** On a text of ASCII code units, lowercasing does not depend on the
    engine's table. *)
Lemma toLowerCase_ascii
  (unicodeLower : jsstring -> codeunit -> jsstring -> jsstring)
  (s : jsstring) :
  forallb (fun c => N.ltb c 128) s = true ->
  toLowerCase unicodeLower s = map asciiLower s.
Proof.
  unfold toLowerCase. generalize (@nil codeunit) as before.
  induction s as [|c s IH]; intros before; simpl; [reflexivity|].
  intros H. apply andb_true_iff in H as [Hc Hs].
  rewrite Hc, IH by exact Hs. reflexivity.
Qed.

Example toLowerCase_priority_input
  (unicodeLower : jsstring -> codeunit -> jsstring -> jsstring) :
  toLowerCase unicodeLower (lit "Who are you? Tell me more about Patrick")
  = lit "who are you? tell me more about patrick".
Proof. reflexivity. Qed.

Example trim_example :
  trim ([9; 32; 160] ++ lit "hi  there" ++ [13; 10; 8232])%N = lit "hi  there".
Proof. reflexivity. Qed.

(** ** Runs of the store helpers *)

Lemma skipn_own_length {A} (l evs : list A) :
  skipn (length l) (l ++ evs) = evs.
Proof. rewrite skipn_app, skipn_all, Nat.sub_diag. reflexivity. Qed.

Lemma emittedBy_app {A} (m : M A) (w : World) (evs : list Event) :
  trace (fst (m w)) = trace w ++ evs -> emittedBy m w = evs.
Proof.
  unfold emittedBy. intros ->.
  rewrite skipn_app, skipn_all, Nat.sub_diag. reflexivity.
Qed.

Lemma bind_returned {A B} (m : M A) (k : A -> M B) (w w' : World) (a : A) :
  m w = (w', Returned a) -> bind m k w = k a w'.
Proof. unfold bind. intros ->. reflexivity. Qed.

Lemma bind_bind {A B C} (m : M A) (k : A -> M B) (k' : B -> M C) (w : World) :
  bind (bind m k) k' w = bind m (fun a => bind (k a) k') w.
Proof. unfold bind. destruct (m w) as [w' [a|e]]; reflexivity. Qed.

Lemma bind_returned_inv {A B} (m : M A) (k : A -> M B) (w w' : World) (b : B) :
  bind m k w = (w', Returned b) ->
  exists a w1, m w = (w1, Returned a) /\ k a w1 = (w', Returned b).
Proof.
  unfold bind. destruct (m w) as [w1 [a|e]]; [eauto | discriminate].
Qed.

Section Properties.

Variable unicodeLower : jsstring -> codeunit -> jsstring -> jsstring.
Variable env : Env.

Lemma updateConversationHistory_run (s m : jsstring) (r : Role) (w : World) :
  storeFails env (S (ticks w)) = false ->
  updateConversationHistory env s m r w =
  (mkWorld (usersCollection w)
           (updateOnePush s (mkTurn m r (dateNow env (ticks w)))
                          (conversationsCollection w))
           (S (S (ticks w)))
           (trace w ++ [EvConvUpdateOne s m r]),
   Returned tt).
Proof.
  intros ok.
  cbv [updateConversationHistory newDate conversations_updateOne driverCall
       bind ret interact emit readConversations writeConversations].
  cbn [usersCollection conversationsCollection ticks trace message role].
  rewrite ok. reflexivity.
Qed.

Lemma getUserProfile_run (s : jsstring) (w : World) :
  storeFails env (ticks w) = false ->
  (profileOf s w = None -> storeFails env (S (ticks w)) = false) ->
  getUserProfile env s w =
  (mkWorld (usersCollection w ++ missingProfile s w)
           (conversationsCollection w)
           (S (ticks w) + length (missingProfile s w))
           (trace w ++ EvUsersFindOne s
                    :: map EvUsersInsertOne (missingProfile s w)),
   Returned (match profileOf s w with
             | Some user => user
             | None => mkUser s [] [] []
             end)).
Proof.
  intros ok.
  cbv [getUserProfile users_findOne users_insertOne driverCall missingProfile
       bind ret interact emit readUsers writeUsers].
  cbn [usersCollection conversationsCollection ticks trace].
  intros ok'. revert ok'. rewrite ok. unfold profileOf.
  cbn [usersCollection conversationsCollection ticks trace].
  destruct (find _ (usersCollection w)); intros ok';
    cbn [usersCollection conversationsCollection ticks trace length map].
  - rewrite app_nil_r, Nat.add_0_r. reflexivity.
  - rewrite (ok' eq_refl). rewrite <- app_assoc, Nat.add_1_r. reflexivity.
Qed.

Lemma getConversationHistory_run (s : jsstring) (w : World) :
  storeFails env (ticks w) = false ->
  getConversationHistory env s w =
  (mkWorld (usersCollection w) (conversationsCollection w) (S (ticks w))
           (trace w ++ [EvConvFindOne s]),
   Returned (map formatEntry (sliceLast 20 (historyOf s w)))).
Proof.
  intros ok.
  cbv [getConversationHistory conversations_findOne driverCall historyOf
       recordOf bind ret interact emit readConversations].
  cbn [usersCollection conversationsCollection ticks trace].
  rewrite ok.
  destruct (find _ _); reflexivity.
Qed.

Lemma openai_create_run (prompt : jsstring) (w : World) :
  openai_create env prompt w =
  (mkWorld (usersCollection w) (conversationsCollection w) (S (ticks w))
           (trace w ++ [EvCompletion prompt]),
   Returned (openaiCreate env (ticks w) prompt)).
Proof. reflexivity. Qed.

Lemma historyOf_updateOnePush (s : jsstring) (entry : Turn) (w : World)
  (us : list User) (n : nat) (tr : list Event) :
  historyOf s (mkWorld us (updateOnePush s entry (conversationsCollection w))
                       n tr)
  = historyOf s w ++ [entry].
Proof.
  unfold historyOf, recordOf. simpl.
  induction (conversationsCollection w) as [|d docs IH]; simpl.
  - rewrite strictEq_refl. reflexivity.
  - destruct (strictEq (conv_sender d) s) eqn:E; simpl; rewrite E.
    + reflexivity.
    + exact IH.
Qed.

(** A run of the handler that no store failure interrupts. *)
Lemma onMessage_run (msg : Message) (w : World) :
  NoStoreFailure env ->
  let s := msg_from msg in
  let m := trim (msg_body msg) in
  let human := mkTurn m Human (dateNow env (ticks w)) in
  let created := missingProfile s w in
  exists reply gw instant n,
    GatewayStep unicodeLower env m (map formatEntry (sliceLast 20 (historyOf s w ++ [human])))
                reply gw
    /\ onMessage unicodeLower env msg w =
       (mkWorld (usersCollection w ++ created)
                (updateOnePush s (mkTurn reply Bot instant)
                   (updateOnePush s human (conversationsCollection w)))
                n
                (trace w
                 ++ [EvLog Info (lit "Received message from " ++ s
                                   ++ lit ": " ++ m);
                     EvConvUpdateOne s m Human;
                     EvUsersFindOne s]
                 ++ map EvUsersInsertOne created
                 ++ [EvConvFindOne s]
                 ++ gw
                 ++ [EvConvUpdateOne s reply Bot;
                     EvReply msg reply;
                     EvLog Info (lit "Sent response to " ++ s
                                   ++ lit ": " ++ reply)]),
        Returned tt).
Proof.
  intros ok s m human created.
  unfold onMessage, logger_info. fold s. fold m.
  unfold bind at 1. cbv [emit].
  erewrite bind_returned by (apply updateConversationHistory_run; apply ok).
  cbn [usersCollection conversationsCollection ticks trace]. fold human.
  unfold getBotResponse.
  rewrite !bind_bind.
  erewrite bind_returned by (apply getUserProfile_run; intros; apply ok).
  cbn [usersCollection conversationsCollection ticks trace].
  rewrite !bind_bind.
  erewrite bind_returned by (apply getConversationHistory_run; apply ok).
  cbn [usersCollection conversationsCollection ticks trace].
  change (missingProfile s _) with created.
  rewrite historyOf_updateOnePush.
  unfold GatewayStep, matchRule.
  set (fetched := map formatEntry (sliceLast 20 (historyOf s w ++ [human]))).
  destruct (strictEq (toLowerCase unicodeLower m) (lit "hi"));
    [|destruct (includes (toLowerCase unicodeLower m) (lit "who are you"));
      [|destruct (includes (toLowerCase unicodeLower m)
                           (lit "tell me more about patrick"))]].
  1-3: do 4 eexists; (split; [split; reflexivity|]);
       rewrite !bind_bind;
       erewrite bind_returned by (apply updateConversationHistory_run; apply ok);
       cbv [bind ret msg_reply emit];
       cbn [usersCollection conversationsCollection ticks trace];
       rewrite <- !app_assoc; reflexivity.
  rewrite !bind_bind.
  erewrite bind_returned by (apply openai_create_run).
  cbn [usersCollection conversationsCollection ticks trace].
  match goal with
  | |- context [openaiCreate env ?k _] => set (n := k)
  end.
  destruct (settle (openaiCreate env n (buildPrompt (fetched ++ [lit "Human: " ++ m]))))
    as [text|error] eqn:E.
  - do 4 eexists. split; [exists n; cbv zeta; rewrite E; split; reflexivity|].
    rewrite !bind_bind. erewrite bind_returned by reflexivity.
    rewrite !bind_bind.
    erewrite bind_returned by (apply updateConversationHistory_run; apply ok).
    cbv [bind ret msg_reply emit].
    cbn [usersCollection conversationsCollection ticks trace].
    rewrite <- !app_assoc; reflexivity.
  - do 4 eexists. split; [exists n; cbv zeta; rewrite E; split; reflexivity|].
    rewrite !bind_bind. erewrite bind_returned by reflexivity.
    erewrite bind_returned by reflexivity.
    rewrite !bind_bind.
    erewrite bind_returned by (apply updateConversationHistory_run; apply ok).
    cbv [bind ret msg_reply emit].
    cbn [usersCollection conversationsCollection ticks trace].
    rewrite <- !app_assoc; reflexivity.
Qed.


(** What a run of the handler that no store failure interrupts leaves
    behind: its events, its outcome and the two collections. *)
Lemma onMessage_summary (msg : Message) (w : World) :
  NoStoreFailure env ->
  let s := msg_from msg in
  let m := trim (msg_body msg) in
  let human := mkTurn m Human (dateNow env (ticks w)) in
  let w' := fst (onMessage unicodeLower env msg w) in
  exists reply gw instant,
    GatewayStep unicodeLower env m
      (map formatEntry (sliceLast 20 (historyOf s w ++ [human]))) reply gw
    /\ snd (onMessage unicodeLower env msg w) = Returned tt
    /\ emittedBy (onMessage unicodeLower env msg) w =
       [EvLog Info (lit "Received message from " ++ s ++ lit ": " ++ m);
        EvConvUpdateOne s m Human;
        EvUsersFindOne s]
       ++ map EvUsersInsertOne (missingProfile s w)
       ++ [EvConvFindOne s]
       ++ gw
       ++ [EvConvUpdateOne s reply Bot;
           EvReply msg reply;
           EvLog Info (lit "Sent response to " ++ s ++ lit ": " ++ reply)]
    /\ usersCollection w' = usersCollection w ++ missingProfile s w
    /\ conversationsCollection w' =
       updateOnePush s (mkTurn reply Bot instant)
         (updateOnePush s human (conversationsCollection w)).
Proof.
  intros ok s m human w'.
  destruct (onMessage_run msg w ok) as (reply & gw & instant & n & G & R).
  exists reply, gw, instant. subst w'.
  split; [exact G|]. split; [rewrite R; reflexivity|].
  split; [apply emittedBy_app; rewrite R; reflexivity|].
  rewrite R. split; reflexivity.
Qed.

Lemma repliesIn_app (a b : list Event) :
  repliesIn (a ++ b) = repliesIn a ++ repliesIn b.
Proof. apply flat_map_app. Qed.

Lemma promptsIn_app (a b : list Event) :
  promptsIn (a ++ b) = promptsIn a ++ promptsIn b.
Proof. apply flat_map_app. Qed.

Lemma repliesIn_inserts (us : list User) :
  repliesIn (map EvUsersInsertOne us) = [].
Proof. induction us; simpl; auto. Qed.

Lemma promptsIn_inserts (us : list User) :
  promptsIn (map EvUsersInsertOne us) = [].
Proof. induction us; simpl; auto. Qed.

Lemma GatewayStep_replies (m : jsstring) (fetched : list jsstring)
  (reply : jsstring) (gw : list Event) :
  GatewayStep unicodeLower env m fetched reply gw -> repliesIn gw = [].
Proof.
  unfold GatewayStep.
  destruct (matchRule _).
  - intros [_ ->]; reflexivity.
  - intros [n H]. cbv zeta in H.
    destruct (settle _); destruct H as [_ ->]; reflexivity.
Qed.

(** The replies and the completion requests among the events of a run. *)
Lemma onMessage_observed (msg : Message) (w : World) :
  NoStoreFailure env ->
  let s := msg_from msg in
  let m := trim (msg_body msg) in
  let human := mkTurn m Human (dateNow env (ticks w)) in
  let evs := emittedBy (onMessage unicodeLower env msg) w in
  exists reply gw,
    GatewayStep unicodeLower env m
      (map formatEntry (sliceLast 20 (historyOf s w ++ [human]))) reply gw
    /\ repliesIn evs = [reply]
    /\ promptsIn evs = promptsIn gw.
Proof.
  intros ok s m human evs.
  destruct (onMessage_summary msg w ok) as (reply & gw & _ & G & _ & E & _).
  exists reply, gw. split; [exact G|]. subst evs. rewrite E.
  rewrite !repliesIn_app, !promptsIn_app, repliesIn_inserts,
    promptsIn_inserts, (@GatewayStep_replies _ _ _ _ G).
  split; [reflexivity|]. simpl. apply app_nil_r.
Qed.

Lemma hi_excludes (lowered pat : jsstring) :
  includes (lit "hi") pat = false ->
  includes lowered pat = true -> strictEq lowered (lit "hi") = false.
Proof.
  intros N I. destruct (strictEq lowered (lit "hi")) eqn:E; [|reflexivity].
  apply strictEq_true_iff in E. subst lowered. congruence.
Qed.

Lemma matchRule_hit_observed (msg : Message) (w : World) (r : jsstring) :
  NoStoreFailure env ->
  matchRule (toLowerCase unicodeLower (trim (msg_body msg))) = Some r ->
  let evs := emittedBy (onMessage unicodeLower env msg) w in
  repliesIn evs = [r] /\ promptsIn evs = [].
Proof.
  intros ok H evs.
  destruct (onMessage_observed msg w ok) as (reply & gw & G & R & P).
  fold evs in R, P. rewrite R, P. unfold GatewayStep in G. rewrite H in G.
  destruct G as [-> ->]. split; reflexivity.
Qed.

Lemma matchRule_miss_observed (msg : Message) (w : World) :
  NoStoreFailure env ->
  let s := msg_from msg in
  let m := trim (msg_body msg) in
  let human := mkTurn m Human (dateNow env (ticks w)) in
  let evs := emittedBy (onMessage unicodeLower env msg) w in
  let prompt :=
    buildPrompt (map formatEntry (sliceLast 20 (historyOf s w ++ [human]))
                 ++ [lit "Human: " ++ m]) in
  matchRule (toLowerCase unicodeLower m) = None ->
  exists n,
    promptsIn evs = [prompt]
    /\ repliesIn evs = [match settle (openaiCreate env n prompt) with
                        | inl text => text
                        | inr _ => fallbackReply
                        end].
Proof.
  intros ok s m human evs prompt H.
  destruct (onMessage_observed msg w ok) as (reply & gw & G & R & P).
  fold evs in R, P. rewrite R, P. unfold GatewayStep in G.
  fold m in G. rewrite H in G. destruct G as [n G]. cbv zeta in G.
  fold s human prompt in G. exists n.
  destruct (settle (openaiCreate env n prompt)); destruct G as [-> ->];
    split; reflexivity.
Qed.

(** ** Events that are not completion requests *)

Lemma bind_emits (allowed : Event -> bool) {A B} (m : M A) (k : A -> M B) :
  EmitsOnly allowed m -> (forall a, EmitsOnly allowed (k a)) ->
  EmitsOnly allowed (bind m k).
Proof.
  intros Hm Hk w. unfold bind.
  destruct (Hm w) as (evs1 & T1 & F1).
  destruct (m w) as [w1 [a|e1]]; cbn [fst] in *.
  - destruct (Hk a w1) as (evs2 & T2 & F2).
    exists (evs1 ++ evs2). rewrite T2, T1, app_assoc, forallb_app, F1, F2.
    split; reflexivity.
  - exists evs1. split; assumption.
Qed.

Lemma quiet_emits (allowed : Event -> bool) {A} (m : M A) :
  (forall w, trace (fst (m w)) = trace w) -> EmitsOnly allowed m.
Proof.
  intros H w. exists []. rewrite H, app_nil_r. split; reflexivity.
Qed.

Lemma emit_emits (allowed : Event -> bool) (ev : Event) :
  allowed ev = true -> EmitsOnly allowed (emit ev).
Proof.
  intros H w. exists [ev]. simpl. rewrite H. split; reflexivity.
Qed.

Lemma driverCall_emits (allowed : Event -> bool) {A} (ev : Event) (op : M A) :
  allowed ev = true -> (forall w, trace (fst (op w)) = trace w) ->
  EmitsOnly allowed (driverCall env ev op).
Proof.
  intros H Hop. unfold driverCall.
  apply bind_emits; [apply emit_emits; exact H|]. intros _.
  apply bind_emits; [apply quiet_emits; reflexivity|]. intros n.
  apply quiet_emits. intros w.
  destruct (storeFails env n); [reflexivity | apply Hop].
Qed.

Lemma updateConversationHistory_emits (s m : jsstring) (r : Role) :
  EmitsOnly notCompletion (updateConversationHistory env s m r).
Proof.
  unfold updateConversationHistory.
  apply bind_emits; [apply quiet_emits; reflexivity|]. intros now.
  apply driverCall_emits; reflexivity.
Qed.

Lemma getUserProfile_emits (s : jsstring) :
  EmitsOnly notCompletion (getUserProfile env s).
Proof.
  unfold getUserProfile.
  apply bind_emits; [apply driverCall_emits; reflexivity|].
  intros [user|]; [apply quiet_emits; reflexivity|].
  apply bind_emits; [apply driverCall_emits; reflexivity|].
  intros _. apply quiet_emits; reflexivity.
Qed.

Lemma getConversationHistory_emits (s : jsstring) :
  EmitsOnly notCompletion (getConversationHistory env s).
Proof.
  unfold getConversationHistory.
  apply bind_emits; [apply driverCall_emits; reflexivity|].
  intros [c|]; apply quiet_emits; reflexivity.
Qed.

Lemma record_reply_emits (s response : jsstring) :
  EmitsOnly notCompletion (updateConversationHistory env s response Bot ;;
                           ret response).
Proof.
  apply bind_emits; [apply updateConversationHistory_emits|].
  intros _. apply quiet_emits; reflexivity.
Qed.

(** What the handler does with the response of the resolver. *)
Lemma deliver_reply_emits (msg : Message) (botResponse text : jsstring) :
  EmitsOnly notCompletion (msg_reply msg botResponse ;; logger_info text).
Proof.
  apply bind_emits; [apply emit_emits; reflexivity|].
  intros _. apply emit_emits; reflexivity.
Qed.

Lemma promptsIn_notCompletion (evs : list Event) :
  forallb notCompletion evs = true -> promptsIn evs = [].
Proof.
  induction evs as [|ev evs IH]; simpl; [reflexivity|].
  intros H. apply andb_true_iff in H as [H1 H2].
  destruct ev; try discriminate H1; simpl; auto.
Qed.

(** When a rule matches, no completion request is issued, whatever the
    store does. *)
Lemma matchRule_hit_no_prompt (msg : Message) (w : World) (r : jsstring) :
  matchRule (toLowerCase unicodeLower (trim (msg_body msg))) = Some r ->
  promptsIn (emittedBy (onMessage unicodeLower env msg) w) = [].
Proof.
  intros hit.
  assert (E : EmitsOnly notCompletion (onMessage unicodeLower env msg)).
  { unfold onMessage.
    apply bind_emits; [apply emit_emits; reflexivity|]. intros _.
    apply bind_emits; [apply updateConversationHistory_emits|]. intros _.
    apply bind_emits;
      [|intros botResponse; apply deliver_reply_emits].
    unfold getBotResponse.
    apply bind_emits; [apply getUserProfile_emits|]. intros _.
    apply bind_emits; [apply getConversationHistory_emits|].
    intros fetched. cbv zeta. unfold matchRule in hit.
    destruct (strictEq _ _); [apply record_reply_emits|].
    destruct (includes _ _); [apply record_reply_emits|].
    destruct (includes _ _); [apply record_reply_emits|].
    discriminate hit. }
  destruct (E w) as (evs & T & F).
  rewrite (@emittedBy_app _ _ _ _ T). apply promptsIn_notCompletion. exact F.
Qed.

(** C1, as the code has it: when no store call fails, the handler appends
    the Human turn first, then loads the profile (inserting it when it is
    missing), then fetches the recent history whether or not a rule will
    match, then tries the rules; the completion request is made only when
    no rule matches; the Bot turn is appended, the reply sent and the log
    line written last. *)
Theorem onMessage_step_order (msg : Message) (w : World) :
  NoStoreFailure env ->
  let s := msg_from msg in
  let m := trim (msg_body msg) in
  exists reply gw,
    emittedBy (onMessage unicodeLower env msg) w =
      [EvLog Info (lit "Received message from " ++ s ++ lit ": " ++ m);
       EvConvUpdateOne s m Human;
       EvUsersFindOne s]
      ++ map EvUsersInsertOne (missingProfile s w)
      ++ [EvConvFindOne s]
      ++ gw
      ++ [EvConvUpdateOne s reply Bot;
          EvReply msg reply;
          EvLog Info (lit "Sent response to " ++ s ++ lit ": " ++ reply)]
    /\ (matchRule (toLowerCase unicodeLower m) <> None -> gw = [])
    /\ (matchRule (toLowerCase unicodeLower m) = None ->
        exists prompt,
          gw = [EvCompletion prompt]
          \/ exists text, gw = [EvCompletion prompt; EvLog Error text]).
Proof.
  intros ok s m.
  destruct (onMessage_summary msg w ok) as (reply & gw & _ & G & _ & E & _).
  exists reply, gw. split; [exact E|].
  unfold GatewayStep in G. fold s m in G.
  destruct (matchRule (toLowerCase unicodeLower m)) as [r|].
  - split; [intros _; apply G | discriminate].
  - split; [congruence | intros _].
    destruct G as [n G]. cbv zeta in G.
    eexists. destruct (settle _) as [text|error]; destruct G as [_ ->].
    + left; reflexivity.
    + right; eexists; reflexivity.
Qed.

(** C2: the rules are tried in the order "hi", "who are you", "tell me more
    about patrick", and the first that matches decides: no completion
    request is issued, and the reply sent (when no store call fails) is the
    reply of that rule; "Who are you? Tell me more about Patrick" gets the
    "who are you" reply. *)
Theorem rule_priority (msg : Message) (w : World) :
  let lowered := toLowerCase unicodeLower (trim (msg_body msg)) in
  let evs := emittedBy (onMessage unicodeLower env msg) w in
  (lowered = lit "hi" ->
   promptsIn evs = []
   /\ (NoStoreFailure env -> repliesIn evs = [greetingReply]))
  /\ (includes lowered (lit "who are you") = true ->
      promptsIn evs = []
      /\ (NoStoreFailure env -> repliesIn evs = [whoAreYouReply]))
  /\ (includes lowered (lit "who are you") = false ->
      includes lowered (lit "tell me more about patrick") = true ->
      promptsIn evs = []
      /\ (NoStoreFailure env -> repliesIn evs = [patrickReply]))
  /\ (msg_body msg = lit "Who are you? Tell me more about Patrick" ->
      promptsIn evs = []
      /\ (NoStoreFailure env -> repliesIn evs = [whoAreYouReply])).
Proof.
  intros lowered evs.
  assert (Hit : forall r, matchRule lowered = Some r ->
                promptsIn evs = []
                /\ (NoStoreFailure env -> repliesIn evs = [r])).
  { intros r hit. split.
    - exact (matchRule_hit_no_prompt msg w hit).
    - intros ok. exact (proj1 (matchRule_hit_observed msg w ok hit)). }
  assert (Who : includes lowered (lit "who are you") = true ->
                matchRule lowered = Some whoAreYouReply).
  { intros I. unfold matchRule.
    rewrite (@hi_excludes lowered (lit "who are you") eq_refl I), I.
    reflexivity. }
  split; [|split; [|split]].
  - intros H. apply Hit. rewrite H. reflexivity.
  - intros I. apply Hit, Who, I.
  - intros N I. apply Hit. unfold matchRule.
    rewrite (@hi_excludes lowered (lit "tell me more about patrick") eq_refl I),
      N, I.
    reflexivity.
  - intros B. apply Hit, Who. subst lowered. rewrite B. reflexivity.
Qed.

Lemma historyOf_after_push (s : jsstring) (entry : Turn) (w w' : World) :
  conversationsCollection w' =
    updateOnePush s entry (conversationsCollection w) ->
  historyOf s w' = historyOf s w ++ [entry].
Proof.
  intros H. destruct w' as [us cs n tr]. simpl in H. subst cs.
  apply historyOf_updateOnePush.
Qed.

(** C3: when no rule matches and the completion request fails, in whatever
    way (a rejection, or a response without a choice or without content),
    the handler returns normally, the reply sent is the fixed fallback
    string, and a Bot turn with that reply is appended to the sender's
    record after the Human turn. *)
Theorem gateway_failure_fallback (msg : Message) (w : World) :
  NoStoreFailure env ->
  (forall n prompt, exists error, settle (openaiCreate env n prompt) = inr error) ->
  matchRule (toLowerCase unicodeLower (trim (msg_body msg))) = None ->
  let s := msg_from msg in
  let m := trim (msg_body msg) in
  let w' := fst (onMessage unicodeLower env msg w) in
  snd (onMessage unicodeLower env msg w) = Returned tt
  /\ repliesIn (emittedBy (onMessage unicodeLower env msg) w) = [fallbackReply]
  /\ exists instant,
       historyOf s w' =
       historyOf s w ++ [mkTurn m Human (dateNow env (ticks w));
                         mkTurn fallbackReply Bot instant].
Proof.
  intros ok fails miss s m w'.
  destruct (onMessage_summary msg w ok)
    as (reply & gw & instant & G & O & _ & _ & C).
  destruct (matchRule_miss_observed msg w ok miss) as (n & _ & R).
  unfold GatewayStep in G. rewrite miss in G. destruct G as [k G].
  cbv zeta in G.
  destruct (fails n (buildPrompt
     (map formatEntry
        (sliceLast 20
           (historyOf (msg_from msg) w ++
            [mkTurn (trim (msg_body msg)) Human (dateNow env (ticks w))]))
      ++ [lit "Human: " ++ trim (msg_body msg)]))) as [e1 E1].
  rewrite E1 in R.
  match type of G with
  | match settle (openaiCreate env k ?p) with _ => _ end =>
      destruct (fails k p) as [e2 E2]; rewrite E2 in G
  end.
  destruct G as [-> _].
  split; [exact O|]. split; [exact R|].
  exists instant. subst w'.
  set (human := mkTurn m Human (dateNow env (ticks w))).
  set (w1 := mkWorld [] (updateOnePush s human (conversationsCollection w))
                     0 []).
  rewrite (@historyOf_after_push s _ w1 _ C).
  rewrite (@historyOf_after_push s human w w1 eq_refl).
  rewrite <- app_assoc. reflexivity.
Qed.

Lemma sliceLast_length {A} (n : nat) (l : list A) :
  length (sliceLast n l) = Nat.min n (length l).
Proof. unfold sliceLast. rewrite length_skipn. lia. Qed.

Lemma sliceLast_suffix {A} (n : nat) (l : list A) :
  exists older, l = older ++ sliceLast n l.
Proof.
  exists (firstn (length l - n) l). unfold sliceLast.
  symmetry. apply firstn_skipn.
Qed.

Lemma sliceLast_snoc {A} (n : nat) (l : list A) (x : A) :
  exists older, sliceLast (S n) (l ++ [x]) = older ++ [x].
Proof.
  unfold sliceLast. rewrite length_app. simpl length.
  exists (skipn (length l + 1 - S n) l).
  rewrite skipn_app.
  replace (length l + 1 - S n - length l) with 0 by lia. reflexivity.
Qed.

(** C4: the recent-history read, when the driver call succeeds, returns at
    most 20 entries; they are the
    last 20 turns of the sender's record (all of them when there are fewer),
    each formatted as "role: message", in the order of the record; without
    a record the result is the empty array, not an error. *)
Theorem recent_history_bounded (s : jsstring) (w : World) :
  storeFails env (ticks w) = false ->
  exists recent,
    snd (getConversationHistory env s w) = Returned recent
    /\ length recent <= 20
    /\ (recordOf s w = None -> recent = [])
    /\ (forall c, recordOf s w = Some c ->
        length recent = Nat.min 20 (length (history c))
        /\ exists older,
             map (fun t => roleName (role t) ++ lit ": " ++ message t)
                 (history c)
             = older ++ recent).
Proof.
  intros ok. rewrite (getConversationHistory_run s w ok). simpl snd.
  eexists. split; [reflexivity|].
  split; [rewrite length_map, sliceLast_length; lia|].
  unfold historyOf. split.
  - intros ->. reflexivity.
  - intros c ->. rewrite length_map, sliceLast_length. split; [reflexivity|].
    destruct (sliceLast_suffix 20 (history c)) as [older E].
    exists (map formatEntry older).
    rewrite <- map_app, <- E. reflexivity.
Qed.

(** One run of the handler adds to the sender's record the Human turn of
    the message and the Bot turn of the reply it sends. *)
Lemma onMessage_history (msg : Message) (w : World) :
  NoStoreFailure env ->
  let s := msg_from msg in
  let w' := fst (onMessage unicodeLower env msg w) in
  exists reply instant evs,
    trace w' = trace w ++ evs
    /\ repliesIn evs = [reply]
    /\ historyOf s w' =
       historyOf s w ++ [mkTurn (trim (msg_body msg)) Human
                                (dateNow env (ticks w));
                         mkTurn reply Bot instant].
Proof.
  intros ok s w'.
  destruct (onMessage_run msg w ok) as (reply & gw & instant & n & G & R).
  exists reply, instant. eexists. subst w'. rewrite R. cbn [fst trace].
  split; [reflexivity|].
  split.
  - rewrite !repliesIn_app, repliesIn_inserts,
      (@GatewayStep_replies _ _ _ _ G) in *. reflexivity.
  - set (human := mkTurn _ Human _).
    set (w1 := mkWorld [] (updateOnePush (msg_from msg) human
                             (conversationsCollection w)) 0 []).
    match goal with
    | |- historyOf s ?w2 = _ =>
        rewrite (@historyOf_after_push s (mkTurn reply Bot instant) w1 w2
                   eq_refl)
    end.
    rewrite (@historyOf_after_push s human w w1 eq_refl).
    rewrite <- app_assoc. reflexivity.
Qed.

Lemma deliver_cons (msg : Message) (msgs : list Message) (w : World) :
  deliver unicodeLower env (msg :: msgs) w
  = deliver unicodeLower env msgs (fst (onMessage unicodeLower env msg w)).
Proof. reflexivity. Qed.

Lemma deliver_history (s : jsstring) (msgs : list Message) :
  NoStoreFailure env ->
  Forall (fun msg => msg_from msg = s) msgs ->
  forall w,
  exists evs,
    trace (deliver unicodeLower env msgs w) = trace w ++ evs
    /\ length (repliesIn evs) = length msgs
    /\ map turnView (historyOf s (deliver unicodeLower env msgs w))
       = map turnView (historyOf s w)
         ++ exchange (map msg_body msgs) (repliesIn evs).
Proof.
  intros ok same. induction same as [|msg msgs from _ IH]; intros w.
  - exists []. simpl. rewrite !app_nil_r. auto.
  - rewrite deliver_cons.
    destruct (onMessage_history msg w ok) as (reply & instant & evs1 & T & R & H).
    cbv zeta in T, H. rewrite from in H.
    destruct (IH (fst (onMessage unicodeLower env msg w)))
      as (evs2 & T2 & L2 & H2).
    exists (evs1 ++ evs2). rewrite T2, T, <- app_assoc.
    split; [reflexivity|].
    rewrite repliesIn_app, R. simpl. split; [congruence|].
    rewrite H2, H, map_app, <- app_assoc. reflexivity.
Qed.

Lemma exchange_length (bodies replies : list jsstring) :
  length replies = length bodies ->
  length (exchange bodies replies) = 2 * length bodies.
Proof.
  revert replies. induction bodies as [|b bodies IH]; intros [|r replies];
    simpl; try discriminate; auto.
  intros H. rewrite IH by congruence. lia.
Qed.

(** C5: after the handler has processed N messages of one sender one after
    the other without a store failure, the sender's record is what it was
    followed by, per message and in the order sent, a Human turn with the
    trimmed body and a Bot turn with the reply sent: 2N more turns, and
    exactly 2N when the sender had no turn before. *)
Theorem deliver_two_turns_per_message (s : jsstring) (msgs : list Message)
  (w : World) :
  NoStoreFailure env ->
  Forall (fun msg => msg_from msg = s) msgs ->
  let w' := deliver unicodeLower env msgs w in
  let replies := repliesIn (skipn (length (trace w)) (trace w')) in
  length replies = length msgs
  /\ map turnView (historyOf s w')
     = map turnView (historyOf s w) ++ exchange (map msg_body msgs) replies
  /\ length (historyOf s w') = length (historyOf s w) + 2 * length msgs
  /\ (historyOf s w = [] -> length (historyOf s w') = 2 * length msgs).
Proof.
  intros ok same w' replies.
  destruct (deliver_history ok same w) as (evs & T & L & H).
  assert (E : replies = repliesIn evs).
  { subst replies w'. rewrite T, skipn_app, skipn_all, Nat.sub_diag.
    reflexivity. }
  fold w' in H. rewrite E.
  assert (Len : length (historyOf s w')
                = length (historyOf s w) + 2 * length msgs).
  { rewrite <- (length_map turnView (historyOf s w')), H, length_app,
      length_map, exchange_length; rewrite ?length_map; auto. }
  repeat split; auto.
  intros Z. rewrite Len, Z. reflexivity.
Qed.

Lemma join_last_two (sep a b : jsstring) (older : list jsstring) :
  exists before, join sep (older ++ [a; b]) = before ++ a ++ sep ++ b.
Proof.
  induction older as [|x older [before IH]].
  - exists []. reflexivity.
  - exists (x ++ sep ++ before).
    change ((x :: older) ++ [a; b]) with (x :: (older ++ [a; b])).
    destruct (older ++ [a; b]) as [|y rest] eqn:E.
    + destruct older; discriminate.
    + change (join sep (x :: y :: rest)) with (x ++ sep ++ join sep (y :: rest)).
      rewrite IH, <- !app_assoc. reflexivity.
Qed.

(** C6: a body that is "hi" in any letter case between any amount of
    whitespace gets the greeting, without a completion request; the body
    "hiya" matches no rule and makes the handler call the completion
    service. *)
Theorem hi_exact_match (msg : Message) (w : World) :
  NoStoreFailure env ->
  let evs := emittedBy (onMessage unicodeLower env msg) w in
  (forall ws1 ws2 h i,
      forallb isWhiteSpace ws1 = true -> forallb isWhiteSpace ws2 = true ->
      isLetterH h -> isLetterI i ->
      msg_body msg = ws1 ++ [h; i] ++ ws2 ->
      repliesIn evs = [greetingReply] /\ promptsIn evs = [])
  /\ (msg_body msg = lit "hiya" ->
      strictEq (toLowerCase unicodeLower (trim (msg_body msg))) (lit "hi")
      = false
      /\ matchRule (toLowerCase unicodeLower (trim (msg_body msg))) = None
      /\ exists prompt, promptsIn evs = [prompt]).
Proof.
  intros ok evs. split.
  - intros ws1 ws2 h i W1 W2 Hh Hi B.
    apply matchRule_hit_observed; [exact ok|]. rewrite B.
    assert (T : trim (ws1 ++ [h; i] ++ ws2) = [h; i]).
    { apply (@trim_surrounded ws1 ws2 [] h i W1 W2).
      - destruct Hh as [-> | ->]; reflexivity.
      - destruct Hi as [-> | ->]; reflexivity. }
    rewrite T.
    destruct Hh as [-> | ->]; destruct Hi as [-> | ->]; reflexivity.
  - intros B.
    assert (miss : matchRule (toLowerCase unicodeLower (trim (msg_body msg)))
                   = None) by (rewrite B; reflexivity).
    split; [rewrite B; reflexivity|]. split; [exact miss|].
    destruct (matchRule_miss_observed msg w ok miss) as (n & P & _).
    eexists. exact P.
Qed.

Lemma missingProfile_length (s : jsstring) (w : World) :
  length (missingProfile s w) <= 1.
Proof. unfold missingProfile. destruct (profileOf s w); simpl; lia. Qed.

Lemma matchRule_miss_tests (lowered : jsstring) :
  matchRule lowered = None ->
  strictEq lowered (lit "hi") = false
  /\ includes lowered (lit "who are you") = false
  /\ includes lowered (lit "tell me more about patrick") = false.
Proof.
  unfold matchRule.
  destruct (strictEq _ _); [discriminate|].
  destruct (includes _ _); [discriminate|].
  destruct (includes _ _); [discriminate|]. auto.
Qed.

(** The completion request of a run that reaches the gateway: one request,
    whatever happens to the store afterwards. *)
Lemma onMessage_gateway_prompt (msg : Message) (w : World) :
  (forall n, n <= ticks w + 4 -> storeFails env n = false) ->
  let s := msg_from msg in
  let m := trim (msg_body msg) in
  let human := mkTurn m Human (dateNow env (ticks w)) in
  matchRule (toLowerCase unicodeLower m) = None ->
  promptsIn (emittedBy (onMessage unicodeLower env msg) w)
  = [buildPrompt (map formatEntry (sliceLast 20 (historyOf s w ++ [human]))
                  ++ [lit "Human: " ++ m])].
Proof.
  intros ok s m human miss.
  destruct (matchRule_miss_tests _ miss) as (T1 & T2 & T3).
  unfold emittedBy, onMessage, logger_info. fold s. fold m.
  unfold bind at 1. cbv [emit].
  erewrite bind_returned
    by (apply updateConversationHistory_run; apply ok; cbn [ticks]; lia).
  cbn [usersCollection conversationsCollection ticks trace]. fold human.
  unfold getBotResponse.
  rewrite !bind_bind.
  erewrite bind_returned
    by (apply getUserProfile_run; intros; apply ok; cbn [ticks]; lia).
  cbn [usersCollection conversationsCollection ticks trace].
  change (missingProfile s _) with (missingProfile s w).
  pose proof (missingProfile_length s w) as L.
  rewrite !bind_bind.
  erewrite bind_returned
    by (apply getConversationHistory_run; apply ok; cbn [ticks]; lia).
  cbn [usersCollection conversationsCollection ticks trace].
  rewrite historyOf_updateOnePush, T1, T2, T3.
  rewrite !bind_bind.
  erewrite bind_returned by (apply openai_create_run).
  cbn [usersCollection conversationsCollection ticks trace].
  match goal with
  | |- context [bind ?first ?rest ?w3] =>
      assert (E : EmitsOnly notCompletion (bind first rest));
      [|destruct (E w3) as (evs & T & F); rewrite T]
  end.
  { apply bind_emits; [apply bind_emits|].
    - destruct (settle _); [apply quiet_emits; reflexivity|].
      apply bind_emits; [apply emit_emits; reflexivity|].
      intros _. apply quiet_emits; reflexivity.
    - intros response. apply record_reply_emits.
    - intros botResponse.
      apply (deliver_reply_emits msg botResponse
               (lit "Sent response to " ++ s ++ lit ": " ++ botResponse)). }
  cbn [trace].
  change (EvUsersFindOne s :: map EvUsersInsertOne (missingProfile s w))
    with ([EvUsersFindOne s] ++ map EvUsersInsertOne (missingProfile s w)).
  rewrite <- !app_assoc, skipn_own_length.
  rewrite !promptsIn_app, promptsIn_inserts, (promptsIn_notCompletion _ F).
  reflexivity.
Qed.

(** C10: on the gateway path, when the store calls up to the history read
    succeed (the Human append, the profile load and the read: at most five
    interactions), the context of the prompt ends with the line
    "Human: <message>" twice: the history fetched after the Human turn was
    stored ends with it, and the handler adds it once more before it joins
    the lines; so the prompt sent contains the line two times in a row. *)
Theorem prompt_repeats_latest_message (msg : Message) (w : World) :
  (forall n, n <= ticks w + 4 -> storeFails env n = false) ->
  let s := msg_from msg in
  let m := trim (msg_body msg) in
  let line := lit "Human: " ++ m in
  matchRule (toLowerCase unicodeLower m) = None ->
  exists older,
    snd (getConversationHistory env s
           (fst (updateConversationHistory env s m Human w)))
    = Returned (older ++ [line])
    /\ promptsIn (emittedBy (onMessage unicodeLower env msg) w)
       = [buildPrompt (older ++ [line; line])]
    /\ exists before after,
         buildPrompt (older ++ [line; line])
         = before ++ line ++ newline ++ line ++ after.
Proof.
  intros ok s m line miss.
  pose proof (onMessage_gateway_prompt msg w ok miss) as P.
  fold s m in P.
  set (human := mkTurn m Human (dateNow env (ticks w))) in *.
  destruct (sliceLast_snoc 19 (historyOf s w) human) as [older E].
  rewrite E, map_app in P.
  change (map formatEntry [human]) with [line] in P.
  rewrite <- app_assoc in P.
  exists (map formatEntry older). split; [|split].
  - rewrite (updateConversationHistory_run s m Human w) by (apply ok; lia).
    cbn [fst].
    rewrite getConversationHistory_run by (apply ok; cbn [ticks]; lia).
    cbn [snd]. fold human.
    erewrite historyOf_after_push by reflexivity.
    rewrite E, map_app. reflexivity.
  - exact P.
  - destruct (join_last_two newline line line (map formatEntry older))
      as [before J].
    set (head := newline ++ lit "    Here's the conversation history:"
                 ++ newline ++ lit "    ").
    set (tail := newline ++ newline
                 ++ lit "    Respond to the last message. Be fun, sarcastic, and engaging in your response."
                 ++ newline ++ lit "    Keep it concise (1-2 sentences max)."
                 ++ newline
                 ++ lit "    Avoid big words, use simple, everyday English.").
    assert (B : forall ctx, buildPrompt ctx = head ++ join newline ctx ++ tail).
    { intros ctx. unfold buildPrompt, head, tail.
      rewrite <- !app_assoc. reflexivity. }
    exists (head ++ before), tail. rewrite B, <- app_assoc.
    apply f_equal.
    apply (f_equal (fun t => t ++ tail)) in J.
    rewrite <- !app_assoc in J. exact J.
Qed.

Lemma find_none_filter {A} (p : A -> bool) (l : list A) :
  find p l = None <-> filter p l = [].
Proof.
  induction l as [|x l IH]; simpl; [tauto|].
  destruct (p x); [split; discriminate | exact IH].
Qed.

Lemma updateOnePush_fresh (s : jsstring) (entry : Turn)
  (docs : list Conversation) :
  filter (fun c => strictEq (conv_sender c) s) docs = [] ->
  updateOnePush s entry docs = docs ++ [mkConversation s [entry]].
Proof.
  induction docs as [|d docs IH]; simpl; [reflexivity|].
  destruct (strictEq (conv_sender d) s); [discriminate|].
  intros H. rewrite IH by exact H. reflexivity.
Qed.

Lemma updateOnePush_existing (s : jsstring) (entry : Turn)
  (docs : list Conversation) :
  filter (fun c => strictEq (conv_sender c) s) docs <> [] ->
  length (updateOnePush s entry docs) = length docs
  /\ length (filter (fun c => strictEq (conv_sender c) s)
                    (updateOnePush s entry docs))
     = length (filter (fun c => strictEq (conv_sender c) s) docs).
Proof.
  induction docs as [|d docs IH]; simpl; [congruence|].
  destruct (strictEq (conv_sender d) s) eqn:E; simpl; rewrite E.
  - intros _. split; reflexivity.
  - intros H. destruct (IH H) as [L F]. split; congruence.
Qed.

(** C7: [getUserProfile] inserts a profile with empty preferences and
    favorites when the sender has none, and returns it; otherwise it
    returns the stored profile and inserts nothing.  The first message of a
    sender makes one profile and one conversation record; the second makes
    neither. *)
Theorem first_contact_creates_once (s : jsstring) (msg1 msg2 : Message)
  (w : World) :
  NoStoreFailure env ->
  msg_from msg1 = s -> msg_from msg2 = s ->
  profilesOf s w = [] -> recordsOf s w = [] ->
  let w1 := fst (onMessage unicodeLower env msg1 w) in
  let w2 := fst (onMessage unicodeLower env msg2 w1) in
  (forall s0 w0,
      profileOf s0 w0 = None ->
      snd (getUserProfile env s0 w0) = Returned (mkUser s0 [] [] [])
      /\ usersCollection (fst (getUserProfile env s0 w0))
         = usersCollection w0 ++ [mkUser s0 [] [] []])
  /\ (forall s0 w0 user,
      profileOf s0 w0 = Some user ->
      snd (getUserProfile env s0 w0) = Returned user
      /\ usersCollection (fst (getUserProfile env s0 w0))
         = usersCollection w0)
  /\ usersCollection w1 = usersCollection w ++ [mkUser s [] [] []]
  /\ length (conversationsCollection w1)
     = S (length (conversationsCollection w))
  /\ length (profilesOf s w1) = 1
  /\ length (recordsOf s w1) = 1
  /\ usersCollection w2 = usersCollection w1
  /\ length (conversationsCollection w2)
     = length (conversationsCollection w1)
  /\ length (profilesOf s w2) = 1
  /\ length (recordsOf s w2) = 1.
Proof.
  intros ok from1 from2 noProfile noRecord w1 w2.
  split; [|split].
  - intros s0 w0 H. rewrite (getUserProfile_run s0 w0 (ok _) (fun _ => ok _)).
    unfold missingProfile. rewrite H. split; reflexivity.
  - intros s0 w0 user H. rewrite (getUserProfile_run s0 w0 (ok _) (fun _ => ok _)).
    unfold missingProfile. rewrite H. cbn [fst snd usersCollection].
    rewrite app_nil_r. split; reflexivity.
  - destruct (onMessage_summary msg1 w ok)
      as (r1 & gw1 & t1 & _ & _ & _ & U1 & C1).
    fold w1 in U1, C1. rewrite from1 in U1, C1.
    assert (M1 : missingProfile s w = [mkUser s [] [] []]).
    { unfold missingProfile, profileOf.
      apply find_none_filter in noProfile. rewrite noProfile. reflexivity. }
    rewrite M1 in U1.
    rewrite (updateOnePush_fresh s _ (conversationsCollection w) noRecord)
      in C1.
    assert (P1 : profilesOf s w1 = [mkUser s [] [] []]).
    { unfold profilesOf. rewrite U1, filter_app.
      unfold profilesOf in noProfile. rewrite noProfile. simpl.
      rewrite strictEq_refl. reflexivity. }
    set (first := mkConversation s [mkTurn (trim (msg_body msg1)) Human
                                           (dateNow env (ticks w))]) in C1.
    assert (F1 : filter (fun c => strictEq (conv_sender c) s)
                        (conversationsCollection w ++ [first]) = [first]).
    { rewrite filter_app. unfold recordsOf in noRecord. rewrite noRecord.
      simpl. rewrite strictEq_refl. reflexivity. }
    assert (N1 : filter (fun c => strictEq (conv_sender c) s)
                        (conversationsCollection w ++ [first]) <> [])
      by (rewrite F1; discriminate).
    destruct (updateOnePush_existing s (mkTurn r1 Bot t1) _ N1) as [L1 R1].
    rewrite <- C1 in L1, R1. rewrite F1 in R1.
    destruct (onMessage_summary msg2 w1 ok)
      as (r2 & gw2 & t2 & _ & _ & _ & U2 & C2).
    fold w2 in U2, C2. rewrite from2 in U2, C2.
    assert (M2 : missingProfile s w1 = []).
    { unfold missingProfile, profileOf.
      destruct (find _ (usersCollection w1)) eqn:E; [reflexivity|].
      apply find_none_filter in E. unfold profilesOf in P1.
      rewrite E in P1. discriminate. }
    rewrite M2, app_nil_r in U2.
    assert (N2 : filter (fun c => strictEq (conv_sender c) s)
                        (conversationsCollection w1) <> []).
    { intros Z. unfold recordsOf in R1. rewrite Z in R1. discriminate. }
    destruct (updateOnePush_existing s
                (mkTurn (trim (msg_body msg2)) Human (dateNow env (ticks w1)))
                _ N2) as [L2 R2].
    assert (N3 : filter (fun c => strictEq (conv_sender c) s)
                   (updateOnePush s
                      (mkTurn (trim (msg_body msg2)) Human
                              (dateNow env (ticks w1)))
                      (conversationsCollection w1)) <> []).
    { intros Z. rewrite Z in R2. simpl in R2. unfold recordsOf in R1.
      rewrite <- R2 in R1. discriminate. }
    destruct (updateOnePush_existing s (mkTurn r2 Bot t2) _ N3) as [L3 R3].
    rewrite <- C2 in L3, R3.
    repeat split.
    + exact U1.
    + rewrite L1, length_app. simpl. lia.
    + rewrite P1. reflexivity.
    + exact R1.
    + exact U2.
    + congruence.
    + unfold profilesOf. rewrite U2. fold (profilesOf s w1).
      rewrite P1. reflexivity.
    + unfold recordsOf. rewrite R3, R2. exact R1.
Qed.

(** ** Append-only growth *)

Lemma ExtendsRecords_refl (docs : list Conversation) :
  ExtendsRecords docs docs.
Proof.
  induction docs as [|d docs IH]; simpl; [exact I|].
  split; [reflexivity|]. split; [exists []; symmetry; apply app_nil_r|exact IH].
Qed.

Lemma ExtendsRecords_trans (a b c : list Conversation) :
  ExtendsRecords a b -> ExtendsRecords b c -> ExtendsRecords a c.
Proof.
  revert b c. induction a as [|x a IH]; intros [|y b] [|z c]; simpl; try tauto.
  intros (S1 & (k1 & H1) & R1) (S2 & (k2 & H2) & R2).
  split; [congruence|]. split; [|eapply IH; eassumption].
  exists (k1 ++ k2). rewrite H2, H1, app_assoc. reflexivity.
Qed.

Lemma ExtendsRecords_push (s : jsstring) (entry : Turn)
  (docs : list Conversation) :
  ExtendsRecords docs (updateOnePush s entry docs).
Proof.
  induction docs as [|d docs IH]; simpl; [exact I|].
  destruct (strictEq (conv_sender d) s); simpl.
  - split; [reflexivity|]. split; [eexists; reflexivity|].
    apply ExtendsRecords_refl.
  - split; [reflexivity|].
    split; [exists []; symmetry; apply app_nil_r|exact IH].
Qed.

Lemma ExtendsRecords_history (s : jsstring) (a b : list Conversation) :
  ExtendsRecords a b ->
  exists added,
    match find (fun c => strictEq (conv_sender c) s) b with
    | Some c => history c
    | None => []
    end
    = match find (fun c => strictEq (conv_sender c) s) a with
      | Some c => history c
      | None => []
      end ++ added.
Proof.
  revert b. induction a as [|x a IH]; intros b.
  - intros _. eexists. reflexivity.
  - destruct b as [|y b]; simpl; [tauto|].
    intros (S1 & (k & H1) & R1). rewrite S1.
    destruct (strictEq (conv_sender x) s).
    + exists k. exact H1.
    + apply IH. exact R1.
Qed.

Lemma Extends_refl (w : World) : Extends w w.
Proof.
  split; [exists []; symmetry; apply app_nil_r | apply ExtendsRecords_refl].
Qed.

Lemma Extends_trans (a b c : World) : Extends a b -> Extends b c -> Extends a c.
Proof.
  intros [[k1 U1] R1] [[k2 U2] R2]. split.
  - exists (k1 ++ k2). rewrite U2, U1, app_assoc. reflexivity.
  - eapply ExtendsRecords_trans; eassumption.
Qed.

Lemma Extends_same (w w' : World) :
  usersCollection w' = usersCollection w ->
  conversationsCollection w' = conversationsCollection w ->
  Extends w w'.
Proof.
  intros U C. split.
  - exists []. rewrite U. symmetry. apply app_nil_r.
  - rewrite C. apply ExtendsRecords_refl.
Qed.

Lemma bind_extends {A B} (m : M A) (k : A -> M B) :
  (forall w, Extends w (fst (m w))) ->
  (forall a w, Extends w (fst (k a w))) ->
  forall w, Extends w (fst (bind m k w)).
Proof.
  intros Hm Hk w. unfold bind. specialize (Hm w).
  destruct (m w) as [w' [a|e]]; simpl in *.
  - eapply Extends_trans; [exact Hm | apply Hk].
  - exact Hm.
Qed.

Lemma emit_extends (ev : Event) (w : World) : Extends w (fst (emit ev w)).
Proof. apply Extends_same; reflexivity. Qed.

Lemma interact_extends (w : World) : Extends w (fst (interact w)).
Proof. apply Extends_same; reflexivity. Qed.

Lemma driverCall_extends {A} (ev : Event) (op : M A) :
  (forall w, Extends w (fst (op w))) ->
  forall w, Extends w (fst (driverCall env ev op w)).
Proof.
  intros H. unfold driverCall.
  apply bind_extends; [apply emit_extends|]. intros _.
  apply bind_extends; [apply interact_extends|]. intros n w.
  destruct (storeFails env n); [(apply Extends_same; reflexivity) | apply H].
Qed.

Lemma updateConversationHistory_extends (s m : jsstring) (r : Role)
  (w : World) :
  Extends w (fst (updateConversationHistory env s m r w)).
Proof.
  revert w. unfold updateConversationHistory, newDate.
  apply bind_extends.
  - apply bind_extends; [apply interact_extends|].
    intros n w. (apply Extends_same; reflexivity).
  - intros now. apply driverCall_extends. intros w. split; simpl.
    + exists []. symmetry. apply app_nil_r.
    + apply ExtendsRecords_push.
Qed.

Lemma getUserProfile_extends (s : jsstring) (w : World) :
  Extends w (fst (getUserProfile env s w)).
Proof.
  revert w. unfold getUserProfile.
  apply bind_extends.
  - apply driverCall_extends. intros w. (apply Extends_same; reflexivity).
  - intros [user|] w; [(apply Extends_same; reflexivity)|]. revert w.
    apply bind_extends; [|intros _ w; (apply Extends_same; reflexivity)].
    apply driverCall_extends. intros w. split; simpl.
    + eexists. reflexivity.
    + apply ExtendsRecords_refl.
Qed.

Lemma getConversationHistory_extends (s : jsstring) (w : World) :
  Extends w (fst (getConversationHistory env s w)).
Proof.
  revert w. unfold getConversationHistory.
  apply bind_extends.
  - apply driverCall_extends. intros w. (apply Extends_same; reflexivity).
  - intros [c|] w; (apply Extends_same; reflexivity).
Qed.

Lemma record_reply_extends (s response : jsstring) (w : World) :
  Extends w (fst ((updateConversationHistory env s response Bot ;;
                   ret response) w)).
Proof.
  revert w. apply bind_extends.
  - intros w. apply updateConversationHistory_extends.
  - intros _ w. (apply Extends_same; reflexivity).
Qed.

Lemma getBotResponse_extends (s incomingMsg : jsstring) (w : World) :
  Extends w (fst (getBotResponse unicodeLower env s incomingMsg w)).
Proof.
  revert w. unfold getBotResponse.
  apply bind_extends; [intros w; apply getUserProfile_extends|]. intros _.
  apply bind_extends; [intros w; apply getConversationHistory_extends|].
  intros fetched w. cbv zeta.
  destruct (strictEq _ _); [apply record_reply_extends|].
  destruct (includes _ _); [apply record_reply_extends|].
  destruct (includes _ _); [apply record_reply_extends|].
  revert w. apply bind_extends; [intros w; (apply Extends_same; reflexivity)|].
  intros settled. apply bind_extends.
  - intros w. destruct (settle settled); (apply Extends_same; reflexivity).
  - intros response w. apply record_reply_extends.
Qed.

Lemma onMessage_extends (msg : Message) (w : World) :
  Extends w (fst (onMessage unicodeLower env msg w)).
Proof.
  revert w. unfold onMessage.
  apply bind_extends; [intros w; (apply Extends_same; reflexivity)|]. intros _.
  apply bind_extends; [intros w; apply updateConversationHistory_extends|].
  intros _.
  apply bind_extends; [intros w; apply getBotResponse_extends|].
  intros botResponse.
  apply bind_extends; intros; (apply Extends_same; reflexivity).
Qed.

Lemma deliver_extends (msgs : list Message) (w : World) :
  Extends w (deliver unicodeLower env msgs w).
Proof.
  revert w. induction msgs as [|msg msgs IH]; intros w.
  - apply Extends_refl.
  - rewrite deliver_cons.
    eapply Extends_trans; [apply onMessage_extends | apply IH].
Qed.

(** C9: whatever the environment does, store failures included, each store
    helper, the resolver, the handler and any sequence of handler runs leave
    every profile and every conversation record in place, with the turns a
    record had as a prefix of the turns it has afterwards. *)
Theorem append_only :
  (forall s m r w, Extends w (fst (updateConversationHistory env s m r w)))
  /\ (forall s w, Extends w (fst (getUserProfile env s w)))
  /\ (forall s w, Extends w (fst (getConversationHistory env s w)))
  /\ (forall s m w, Extends w (fst (getBotResponse unicodeLower env s m w)))
  /\ (forall msg w, Extends w (fst (onMessage unicodeLower env msg w)))
  /\ (forall msgs w,
        Extends w (deliver unicodeLower env msgs w)
        /\ forall s, exists added,
             historyOf s (deliver unicodeLower env msgs w)
             = historyOf s w ++ added).
Proof.
  repeat split.
  - apply updateConversationHistory_extends.
  - apply updateConversationHistory_extends.
  - apply getUserProfile_extends.
  - apply getUserProfile_extends.
  - apply getConversationHistory_extends.
  - apply getConversationHistory_extends.
  - apply getBotResponse_extends.
  - apply getBotResponse_extends.
  - apply onMessage_extends.
  - apply onMessage_extends.
  - apply deliver_extends.
  - apply deliver_extends.
  - intros s. apply ExtendsRecords_history. apply deliver_extends.
Qed.

(** ** Store failures *)

Lemma bind_stops {A B} (m : M A) (k : A -> M B) :
  StopsAtFailure env m -> (forall a, StopsAtFailure env (k a)) ->
  StopsAtFailure env (bind m k).
Proof.
  intros Hm Hk w. unfold bind.
  destruct (Hm w) as (evs1 & T1 & R1 & F1).
  destruct (m w) as [w1 [a|e1]]; cbn [fst snd] in *.
  - destruct (Hk a w1) as (evs2 & T2 & R2 & F2).
    exists (evs1 ++ evs2). rewrite T2, T1, app_assoc, repliesIn_app, R1, R2.
    split; [reflexivity|]. split; [reflexivity|].
    intros e E. destruct (F2 e E) as (before & call & -> & D & S).
    exists (evs1 ++ before), call. rewrite app_assoc.
    split; [reflexivity|]. split; assumption.
  - exists evs1. split; [exact T1|]. split; [exact R1|].
    intros e E. apply (F1 e). congruence.
Qed.

Lemma quiet_stops {A} (m : M A) :
  (forall w, exists a, m w = (mkWorld (usersCollection (fst (m w)))
                                      (conversationsCollection (fst (m w)))
                                      (ticks (fst (m w))) (trace w),
                              Returned a)) ->
  StopsAtFailure env m.
Proof.
  intros H w. destruct (H w) as [a E]. exists [].
  rewrite E. cbn [fst snd trace]. rewrite app_nil_r.
  split; [reflexivity|]. split; [reflexivity|]. discriminate.
Qed.

Lemma emit_stops (ev : Event) :
  repliesIn [ev] = [] -> StopsAtFailure env (emit ev).
Proof.
  intros R w. exists [ev]. cbn [emit fst snd trace].
  split; [reflexivity|]. split; [exact R|]. discriminate.
Qed.

Lemma driverCall_stops {A} (ev : Event) (op : M A) :
  isDriverCall ev = true ->
  StopsAtFailure env op ->
  (forall w e, snd (op w) <> Thrown e) ->
  StopsAtFailure env (driverCall env ev op).
Proof.
  intros D Hop total w. unfold driverCall, bind, emit, interact.
  cbn [usersCollection conversationsCollection ticks trace].
  destruct (storeFails env (ticks w)) eqn:F.
  - exists [ev]. cbn [throw fst snd trace ticks pred].
    split; [reflexivity|]. split; [destruct ev; try discriminate; reflexivity|].
    intros e _. exists [], ev. split; [reflexivity|]. split; assumption.
  - match goal with |- context [op ?w1] => set (w1' := w1) end.
    destruct (Hop w1') as (evs & T & R & _).
    exists (ev :: evs). rewrite T. cbn [w1' trace].
    rewrite <- app_assoc. split; [reflexivity|].
    split; [destruct ev; try discriminate; exact R|].
    intros e E. destruct (total w1' e E).
Qed.

Lemma updateConversationHistory_stops (s m : jsstring) (r : Role) :
  StopsAtFailure env (updateConversationHistory env s m r).
Proof.
  unfold updateConversationHistory, newDate.
  apply bind_stops.
  - apply quiet_stops. intros [us cs n tr]. eexists. reflexivity.
  - intros now. apply driverCall_stops; [reflexivity| |discriminate].
    apply quiet_stops. intros [us cs n tr]. eexists. reflexivity.
Qed.

Lemma getUserProfile_stops (s : jsstring) :
  StopsAtFailure env (getUserProfile env s).
Proof.
  unfold getUserProfile. apply bind_stops.
  - apply driverCall_stops; [reflexivity| |discriminate].
    apply quiet_stops. intros [us cs n tr]. eexists. reflexivity.
  - intros [user|].
    + apply quiet_stops. intros [us cs n tr]. eexists. reflexivity.
    + apply bind_stops.
      * apply driverCall_stops; [reflexivity| |discriminate].
        apply quiet_stops. intros [us cs n tr]. eexists. reflexivity.
      * intros _. apply quiet_stops. intros [us cs n tr]. eexists. reflexivity.
Qed.

Lemma getConversationHistory_stops (s : jsstring) :
  StopsAtFailure env (getConversationHistory env s).
Proof.
  unfold getConversationHistory. apply bind_stops.
  - apply driverCall_stops; [reflexivity| |discriminate].
    apply quiet_stops. intros [us cs n tr]. eexists. reflexivity.
  - intros [c|]; apply quiet_stops; intros [us cs n tr]; eexists; reflexivity.
Qed.

Lemma record_reply_stops (s response : jsstring) :
  StopsAtFailure env (updateConversationHistory env s response Bot ;;
                      ret response).
Proof.
  apply bind_stops; [apply updateConversationHistory_stops|].
  intros _. apply quiet_stops. intros [us cs n tr]. eexists. reflexivity.
Qed.

Lemma getBotResponse_stops (s incomingMsg : jsstring) :
  StopsAtFailure env (getBotResponse unicodeLower env s incomingMsg).
Proof.
  unfold getBotResponse.
  apply bind_stops; [apply getUserProfile_stops|]. intros _.
  apply bind_stops; [apply getConversationHistory_stops|].
  intros fetched. cbv zeta.
  destruct (strictEq _ _); [apply record_reply_stops|].
  destruct (includes _ _); [apply record_reply_stops|].
  destruct (includes _ _); [apply record_reply_stops|].
  apply bind_stops.
  - unfold openai_create. apply bind_stops; [apply emit_stops; reflexivity|].
    intros _. apply quiet_stops. intros [us cs n tr]. eexists. reflexivity.
  - intros settled. apply bind_stops; [|intros; apply record_reply_stops].
    destruct (settle settled).
    + apply quiet_stops. intros [us cs n tr]. eexists. reflexivity.
    + apply bind_stops; [apply emit_stops; reflexivity|].
      intros _. apply quiet_stops. intros [us cs n tr]. eexists. reflexivity.
Qed.

(** A run of the handler that throws has stopped at a driver call: the call
    is the last event of the run and its last interaction with the
    environment, which rejected it; no log line follows it and no reply was
    sent. *)
Lemma onMessage_thrown_at_call (msg : Message) (w : World) (e : Exception) :
  snd (onMessage unicodeLower env msg w) = Thrown e ->
  let evs := emittedBy (onMessage unicodeLower env msg) w in
  exists before call,
    evs = before ++ [call]
    /\ isDriverCall call = true
    /\ storeFails env (pred (ticks (fst (onMessage unicodeLower env msg w))))
       = true
    /\ logsIn evs = logsIn before
    /\ repliesIn evs = [].
Proof.
  set (s := msg_from msg). set (m := trim (msg_body msg)).
  set (steps :=
         (logger_info (lit "Received message from " ++ s ++ lit ": " ++ m) ;;
          updateConversationHistory env s m Human) ;;
         getBotResponse unicodeLower env s m).
  set (finish := fun botResponse =>
         msg_reply msg botResponse ;;
         logger_info (lit "Sent response to " ++ s ++ lit ": " ++ botResponse)).
  assert (E : onMessage unicodeLower env msg w = bind steps finish w).
  { unfold steps. rewrite !bind_bind. reflexivity. }
  assert (S : StopsAtFailure env steps).
  { apply bind_stops; [apply bind_stops|].
    - apply emit_stops. reflexivity.
    - intros _. apply updateConversationHistory_stops.
    - intros _. apply getBotResponse_stops. }
  unfold emittedBy. rewrite E. unfold bind.
  destruct (S w) as (evs & T & R & F).
  destruct (steps w) as [w1 [botResponse|e1]]; cbn [fst snd] in *.
  - discriminate.
  - intros H. cbv zeta. rewrite T, skipn_own_length.
    destruct (F e1 eq_refl) as (before & call & B & D & St).
    exists before, call. split; [exact B|]. split; [exact D|].
    split; [exact St|]. split; [|exact R].
    rewrite B. unfold logsIn. rewrite flat_map_app. simpl.
    destruct call; try discriminate D; rewrite !app_nil_r; reflexivity.
Qed.

(** A store helper returns only when the driver accepted its calls. *)
Lemma updateConversationHistory_returned (s m : jsstring) (r : Role)
  (w w' : World) (a : unit) :
  updateConversationHistory env s m r w = (w', Returned a) ->
  storeFails env (S (ticks w)) = false.
Proof.
  cbv [updateConversationHistory newDate conversations_updateOne driverCall
       bind ret throw interact emit readConversations writeConversations].
  cbn [usersCollection conversationsCollection ticks trace message role].
  destruct (storeFails env (S (ticks w))); [discriminate | reflexivity].
Qed.

Lemma getUserProfile_returned (s : jsstring) (w w' : World) (user : User) :
  getUserProfile env s w = (w', Returned user) ->
  storeFails env (ticks w) = false
  /\ (profileOf s w = None -> storeFails env (S (ticks w)) = false).
Proof.
  cbv [getUserProfile users_findOne users_insertOne driverCall profileOf
       bind ret throw interact emit readUsers writeUsers].
  cbn [usersCollection conversationsCollection ticks trace].
  destruct (storeFails env (ticks w)); [discriminate|].
  cbn [usersCollection conversationsCollection ticks trace].
  destruct (find _ (usersCollection w)); [intros _; split; [reflexivity | discriminate]|].
  cbn [usersCollection conversationsCollection ticks trace].
  destruct (storeFails env (S (ticks w))); [discriminate|].
  intros _. split; reflexivity.
Qed.

Lemma getConversationHistory_returned (s : jsstring) (w w' : World)
  (fetched : list jsstring) :
  getConversationHistory env s w = (w', Returned fetched) ->
  storeFails env (ticks w) = false.
Proof.
  cbv [getConversationHistory conversations_findOne driverCall
       bind ret throw interact emit readConversations].
  cbn [usersCollection conversationsCollection ticks trace].
  destruct (storeFails env (ticks w)); [discriminate | reflexivity].
Qed.

(** A run in which the driver accepts every call of the schedule: what
    [onMessage_run] says, with the interaction of the completion request
    made explicit. *)
Lemma onMessage_scheduled_run (msg : Message) (w : World) :
  (forall n, In n (storeCallTicks unicodeLower msg w) ->
             storeFails env n = false) ->
  let s := msg_from msg in
  let m := trim (msg_body msg) in
  let human := mkTurn m Human (dateNow env (ticks w)) in
  let created := missingProfile s w in
  exists reply gw w',
    onMessage unicodeLower env msg w = (w', Returned tt)
    /\ GatewayStepAt unicodeLower env m
         (map formatEntry (sliceLast 20 (historyOf s w ++ [human])))
         (ticks w + 4 + length created) reply gw
    /\ trace w' =
       trace w
       ++ [EvLog Info (lit "Received message from " ++ s ++ lit ": " ++ m);
           EvConvUpdateOne s m Human;
           EvUsersFindOne s]
       ++ map EvUsersInsertOne created
       ++ [EvConvFindOne s]
       ++ gw
       ++ [EvConvUpdateOne s reply Bot;
           EvReply msg reply;
           EvLog Info (lit "Sent response to " ++ s ++ lit ": " ++ reply)].
Proof.
  intros ok s m human created.
  set (t := ticks w). set (p := length created).
  assert (F1 : storeFails env (S t) = false).
  { apply ok. unfold storeCallTicks. cbv zeta. apply in_or_app. left.
    left. unfold t. lia. }
  assert (F2 : storeFails env (S (S t)) = false).
  { apply ok. unfold storeCallTicks. cbv zeta. apply in_or_app. left.
    right. left. unfold t. lia. }
  assert (F3 : profileOf s w = None -> storeFails env (S (S (S t))) = false).
  { intros N. apply ok.
    assert (M : missingProfile (msg_from msg) w
                = [mkUser (msg_from msg) [] [] []]).
    { unfold missingProfile. fold s. rewrite N. reflexivity. }
    unfold storeCallTicks. cbv zeta. rewrite M.
    apply in_or_app. right. apply in_or_app. left.
    left. unfold t. lia. }
  assert (F4 : storeFails env (S (S (S t)) + p) = false).
  { apply ok. unfold storeCallTicks. cbv zeta.
    apply in_or_app. right. apply in_or_app. right.
    left. unfold t, p, created, s. lia. }
  assert (F5 : forall g,
             g = match matchRule (toLowerCase unicodeLower m) with
                 | Some _ => 0
                 | None => 1
                 end ->
             storeFails env (S (S (S (S (S t)) + p) + g)) = false).
  { intros g ->. apply ok. unfold storeCallTicks. cbv zeta.
    apply in_or_app. right. apply in_or_app. right.
    right. left. unfold t, p, created, s, m. lia. }
  unfold onMessage, logger_info. fold s. fold m.
  unfold bind at 1. cbv [emit].
  erewrite bind_returned by (apply updateConversationHistory_run; exact F1).
  cbn [usersCollection conversationsCollection ticks trace]. fold human t.
  unfold getBotResponse.
  rewrite !bind_bind.
  erewrite bind_returned by (apply getUserProfile_run; [exact F2 | exact F3]).
  cbn [usersCollection conversationsCollection ticks trace].
  change (missingProfile s _) with created. fold p.
  rewrite !bind_bind.
  erewrite bind_returned by (apply getConversationHistory_run; exact F4).
  cbn [usersCollection conversationsCollection ticks trace].
  rewrite historyOf_updateOnePush.
  unfold GatewayStepAt.
  set (fetched := map formatEntry (sliceLast 20 (historyOf s w ++ [human]))).
  unfold matchRule in *.
  destruct (strictEq (toLowerCase unicodeLower m) (lit "hi"));
    [|destruct (includes (toLowerCase unicodeLower m) (lit "who are you"));
      [|destruct (includes (toLowerCase unicodeLower m)
                           (lit "tell me more about patrick"))]].
  1-3: specialize (F5 0 eq_refl); rewrite Nat.add_0_r in F5;
       do 3 eexists;
       rewrite !bind_bind;
       erewrite bind_returned
         by (apply updateConversationHistory_run; exact F5);
       cbv [bind ret msg_reply emit];
       cbn [usersCollection conversationsCollection ticks trace];
       (split; [reflexivity|]); (split; [split; reflexivity|]);
       rewrite <- !app_assoc; reflexivity.
  specialize (F5 1 eq_refl). rewrite Nat.add_1_r in F5.
  rewrite !bind_bind.
  erewrite bind_returned by (apply openai_create_run).
  cbn [usersCollection conversationsCollection ticks trace].
  destruct (settle (openaiCreate env (S (S (S (S t)) + p))
                      (buildPrompt (fetched ++ [lit "Human: " ++ m]))))
    as [text|error] eqn:E.
  - do 3 eexists.
    rewrite !bind_bind. erewrite bind_returned by reflexivity.
    rewrite !bind_bind.
    erewrite bind_returned by (apply updateConversationHistory_run; exact F5).
    cbv [bind ret msg_reply emit].
    cbn [usersCollection conversationsCollection ticks trace].
    split; [reflexivity|].
    split; [replace (t + 4 + p) with (S (S (S (S t)) + p)) by lia;
            cbv zeta; rewrite E; split; reflexivity|].
    rewrite <- !app_assoc; reflexivity.
  - do 3 eexists.
    rewrite !bind_bind. erewrite bind_returned by reflexivity.
    erewrite bind_returned by reflexivity.
    rewrite !bind_bind.
    erewrite bind_returned by (apply updateConversationHistory_run; exact F5).
    cbv [bind ret msg_reply emit].
    cbn [usersCollection conversationsCollection ticks trace].
    split; [reflexivity|].
    split; [replace (t + 4 + p) with (S (S (S (S t)) + p)) by lia;
            cbv zeta; rewrite E; split; reflexivity|].
    rewrite <- !app_assoc; reflexivity.
Qed.

(** A run of the handler that returns was refused no call of the
    schedule. *)
Lemma onMessage_returned_scheduled (msg : Message) (w w' : World) :
  onMessage unicodeLower env msg w = (w', Returned tt) ->
  forall n, In n (storeCallTicks unicodeLower msg w) ->
            storeFails env n = false.
Proof.
  set (s := msg_from msg). set (m := trim (msg_body msg)).
  set (t := ticks w). set (p := length (missingProfile s w)).
  unfold onMessage, logger_info. fold s m. intros Run.
  unfold bind at 1 in Run. cbv [emit] in Run.
  apply bind_returned_inv in Run as (u1 & w1 & U1 & Run).
  pose proof (updateConversationHistory_returned _ _ _ _ U1) as F1.
  cbn [ticks] in F1. fold t in F1.
  rewrite updateConversationHistory_run in U1 by exact F1.
  cbn [usersCollection conversationsCollection ticks trace] in U1.
  injection U1 as <- _.
  apply bind_returned_inv in Run as (reply & w5 & G & _).
  unfold getBotResponse in G.
  apply bind_returned_inv in G as (user & w2 & U2 & G).
  destruct (getUserProfile_returned _ _ U2) as [F2 F3].
  cbn [ticks] in F2, F3. fold t in F2, F3.
  rewrite getUserProfile_run in U2 by assumption.
  cbn [usersCollection conversationsCollection ticks trace] in U2.
  change (missingProfile s _) with (missingProfile s w) in U2.
  fold t p in U2. injection U2 as <- _.
  apply bind_returned_inv in G as (fetched & w3 & U3 & G).
  pose proof (getConversationHistory_returned _ _ U3) as F4.
  cbn [ticks] in F4.
  rewrite getConversationHistory_run in U3 by exact F4.
  cbn [usersCollection conversationsCollection ticks trace] in U3.
  injection U3 as <- _. cbv zeta in G.
  assert (F5 : storeFails env
                 (S (S (S (S (S t)) + p)
                    + match matchRule (toLowerCase unicodeLower m) with
                      | Some _ => 0
                      | None => 1
                      end)) = false).
  { unfold matchRule.
    destruct (strictEq (toLowerCase unicodeLower m) (lit "hi"));
      [|destruct (includes (toLowerCase unicodeLower m) (lit "who are you"));
        [|destruct (includes (toLowerCase unicodeLower m)
                             (lit "tell me more about patrick"))]].
    1-3: apply bind_returned_inv in G as (u5 & w4 & U5 & _);
         apply updateConversationHistory_returned in U5;
         cbn [ticks] in U5; rewrite Nat.add_0_r; exact U5.
    apply bind_returned_inv in G as (settled & w4 & U4 & G).
    rewrite openai_create_run in U4.
    cbn [usersCollection conversationsCollection ticks trace] in U4.
    injection U4 as <- _.
    apply bind_returned_inv in G as (response & w6 & U6 & G).
    assert (T6 : ticks w6 = S (S (S (S (S t)) + p))).
    { destruct (settle settled).
      - injection U6 as <- _. reflexivity.
      - cbv [bind ret logger_error emit] in U6.
        injection U6 as <- _. reflexivity. }
    apply bind_returned_inv in G as (u5 & w7 & U5 & _).
    apply updateConversationHistory_returned in U5.
    rewrite T6 in U5. rewrite Nat.add_1_r. exact U5. }
  intros n Hin. unfold storeCallTicks in Hin. cbv zeta in Hin.
  fold s t p m in Hin.
  apply in_app_or in Hin as [Hin | Hin].
  { destruct Hin as [<- | [<- | []]].
    - replace (t + 1) with (S t) by lia. exact F1.
    - replace (t + 2) with (S (S t)) by lia. exact F2. }
  apply in_app_or in Hin as [Hin | Hin].
  { assert (N : profileOf s w = None).
    { unfold missingProfile in Hin. destruct (profileOf s w); [destruct Hin|].
      reflexivity. }
    apply in_map_iff in Hin as (x & <- & _).
    replace (t + 3) with (S (S (S t))) by lia. exact (F3 N). }
  destruct Hin as [<- | [<- | []]].
  - replace (t + 3 + p) with (S (S (S t)) + p) by lia. exact F4.
  - match goal with
    | |- storeFails env (t + 5 + p + ?g) = false =>
        replace (t + 5 + p + g) with (S (S (S (S (S t)) + p) + g)) by lia
    end.
    exact F5.
Qed.

(** C8, as the code has it: when the driver rejects one of the store calls
    of a run, the handler throws at that call: the call is the last event
    of the run and its last interaction with the environment, so nothing is
    retried, no log line is written for the failure, and no reply is sent.
    When the driver rejects none of them, the run returns. *)
Theorem store_failure_aborts (msg : Message) (w : World) :
  let calls := storeCallTicks unicodeLower msg w in
  let run := onMessage unicodeLower env msg w in
  let evs := emittedBy (onMessage unicodeLower env msg) w in
  ((exists n, In n calls /\ storeFails env n = true) ->
   snd run = Thrown StorageError
   /\ repliesIn evs = []
   /\ exists before call,
        evs = before ++ [call]
        /\ isDriverCall call = true
        /\ storeFails env (pred (ticks (fst run))) = true
        /\ logsIn evs = logsIn before)
  /\ ((forall n, In n calls -> storeFails env n = false) ->
      snd run = Returned tt).
Proof.
  intros calls run evs. split.
  - intros (n & Hin & Rej).
    assert (T : snd run = Thrown StorageError).
    { destruct run as [w' [[]|[]]] eqn:Run; [|reflexivity].
      rewrite (@onMessage_returned_scheduled msg w w' Run n Hin) in Rej.
      discriminate. }
    split; [exact T|].
    destruct (@onMessage_thrown_at_call msg w StorageError T)
      as (before & call & E & D & St & L & R).
    split; [exact R|]. exists before, call.
    split; [exact E|]. split; [exact D|]. split; [exact St | exact L].
  - intros ok.
    destruct (@onMessage_scheduled_run msg w ok) as (reply & gw & w' & Run & _).
    subst run. rewrite Run. reflexivity.
Qed.

End Properties.

(** ** The theorems at concrete inputs *)

Lemma onMessage_step_order_witness :
  exists reply gw,
    emittedBy (onMessage keepNonAscii calmEnv hiMessage) emptyWorld =
      [EvLog Info (lit "Received message from " ++ alice ++ lit ": "
                     ++ lit "Hi");
       EvConvUpdateOne alice (lit "Hi") Human;
       EvUsersFindOne alice]
      ++ map EvUsersInsertOne (missingProfile alice emptyWorld)
      ++ [EvConvFindOne alice]
      ++ gw
      ++ [EvConvUpdateOne alice reply Bot;
          EvReply hiMessage reply;
          EvLog Info (lit "Sent response to " ++ alice ++ lit ": " ++ reply)]
    /\ gw = [].
Proof.
  destruct (@onMessage_step_order keepNonAscii calmEnv hiMessage emptyWorld
              (fun n => eq_refl)) as (reply & gw & E & Hit & _).
  exists reply, gw. split; [exact E | apply Hit; discriminate].
Defined.

Lemma rule_priority_witness :
  repliesIn (emittedBy (onMessage keepNonAscii calmEnv priorityMessage)
                       emptyWorld) = [whoAreYouReply]
  /\ promptsIn (emittedBy (onMessage keepNonAscii calmEnv priorityMessage)
                          emptyWorld) = [].
Proof.
  destruct (proj2 (proj2 (proj2
              (@rule_priority keepNonAscii calmEnv priorityMessage
                              emptyWorld))) eq_refl) as [P R].
  split; [exact (R (fun n => eq_refl)) | exact P].
Defined.

Lemma gateway_failure_fallback_witness :
  snd (onMessage keepNonAscii timeoutEnv helloMessage emptyWorld)
  = Returned tt
  /\ repliesIn (emittedBy (onMessage keepNonAscii timeoutEnv helloMessage)
                          emptyWorld) = [fallbackReply]
  /\ exists instant,
       historyOf alice
         (fst (onMessage keepNonAscii timeoutEnv helloMessage emptyWorld))
       = [mkTurn (lit "hello there") Human 0%Z;
          mkTurn fallbackReply Bot instant].
Proof.
  exact (@gateway_failure_fallback keepNonAscii timeoutEnv helloMessage
           emptyWorld (fun n => eq_refl)
           (fun n prompt => ex_intro _ _ eq_refl) eq_refl).
Defined.

Lemma recent_history_bounded_witness :
  exists recent,
    snd (getConversationHistory calmEnv alice
           (fst (onMessage keepNonAscii calmEnv helloMessage emptyWorld)))
    = Returned recent
    /\ length recent <= 20.
Proof.
  destruct (@recent_history_bounded calmEnv alice
              (fst (onMessage keepNonAscii calmEnv helloMessage emptyWorld))
              eq_refl) as (recent & R & L & _).
  exists recent. split; [exact R | exact L].
Defined.

Lemma deliver_two_turns_per_message_witness :
  length (historyOf alice
            (deliver keepNonAscii calmEnv [helloMessage; hiMessage]
                     emptyWorld)) = 4.
Proof.
  exact (proj2 (proj2 (proj2
           (@deliver_two_turns_per_message keepNonAscii calmEnv alice
              [helloMessage; hiMessage] emptyWorld (fun n => eq_refl)
              (Forall_cons helloMessage (eq_refl alice)
                 (Forall_cons hiMessage (eq_refl alice) (Forall_nil _))))))
           eq_refl).
Defined.

Lemma hi_exact_match_witness :
  repliesIn (emittedBy (onMessage keepNonAscii calmEnv hiMessage) emptyWorld)
  = [greetingReply]
  /\ promptsIn (emittedBy (onMessage keepNonAscii calmEnv hiMessage)
                          emptyWorld) = [].
Proof.
  exact (proj1 (@hi_exact_match keepNonAscii calmEnv hiMessage emptyWorld
                  (fun n => eq_refl))
           [32%N] [32%N] 72%N 105%N eq_refl eq_refl
           (or_intror eq_refl) (or_introl eq_refl) eq_refl).
Defined.

Lemma first_contact_creates_once_witness :
  length (profilesOf alice
            (fst (onMessage keepNonAscii calmEnv helloMessage emptyWorld))) = 1
  /\ length (recordsOf alice
               (fst (onMessage keepNonAscii calmEnv hiMessage
                       (fst (onMessage keepNonAscii calmEnv helloMessage
                                       emptyWorld))))) = 1.
Proof.
  destruct (@first_contact_creates_once keepNonAscii calmEnv alice
              helloMessage hiMessage emptyWorld (fun n => eq_refl)
              eq_refl eq_refl eq_refl eq_refl)
    as (_ & _ & _ & _ & P1 & _ & _ & _ & _ & R2).
  split; [exact P1 | exact R2].
Defined.

Lemma store_failure_aborts_witness :
  (snd (onMessage keepNonAscii brokenStoreEnv helloMessage emptyWorld)
   = Thrown StorageError
   /\ repliesIn (emittedBy (onMessage keepNonAscii brokenStoreEnv
                                      helloMessage) emptyWorld) = [])
  /\ snd (onMessage keepNonAscii calmEnv helloMessage emptyWorld)
     = Returned tt.
Proof.
  split.
  - destruct (proj1 (@store_failure_aborts keepNonAscii brokenStoreEnv
                       helloMessage emptyWorld)
                (ex_intro _ 1 (conj (or_introl eq_refl) eq_refl)))
      as (T & R & _).
    split; [exact T | exact R].
  - exact (proj2 (@store_failure_aborts keepNonAscii calmEnv
                    helloMessage emptyWorld)
             (fun n _ => eq_refl)).
Defined.

Lemma prompt_repeats_latest_message_witness :
  exists older,
    promptsIn (emittedBy (onMessage keepNonAscii calmEnv helloMessage)
                         emptyWorld)
    = [buildPrompt (older ++ [lit "Human: hello there";
                              lit "Human: hello there"])].
Proof.
  destruct (@prompt_repeats_latest_message keepNonAscii calmEnv helloMessage
              emptyWorld (fun n _ => eq_refl) eq_refl)
    as (older & _ & P & _).
  exists older. exact P.
Defined.

(** ** Where the design's order and failure policy do not hold *)

(** C1 as stated fails on the greeting: the Human turn is appended before
    the profile is loaded, and the recent history is fetched although the
    "hi" rule matches. *)
Lemma design_step_order_fails :
  ~ DesignStepOrder keepNonAscii calmEnv hiMessage emptyWorld.
Proof.
  unfold DesignStepOrder. intros [(i & j & Hi & Hj & Lt) _].
  vm_compute in Hi, Hj.
  injection Hi as <-. injection Hj as <-. lia.
Qed.

(** On the same run the "hi" rule matches and the recent history is
    fetched all the same. *)
Example fetch_on_rule_hit :
  matchRule (toLowerCase keepNonAscii (trim (msg_body hiMessage)))
  = Some greetingReply
  /\ existsb isContextFetch
       (emittedBy (onMessage keepNonAscii calmEnv hiMessage) emptyWorld)
     = true.
Proof. split; vm_compute; reflexivity. Qed.

(** C8 as stated fails when the first driver call is rejected: the handler
    stops there, and the only log line of the run was written before the
    call. *)
Lemma failure_is_not_logged :
  ~ FailureIsLogged keepNonAscii brokenStoreEnv helloMessage emptyWorld.
Proof.
  unfold FailureIsLogged. intros H.
  destruct (H eq_refl) as (_ & before & call & l & text & after & E & D & _ & I).
  vm_compute in E.
  destruct before as [|b0 [|b1 [|b2 before]]]; simpl in E.
  - injection E as <- <-. discriminate D.
  - injection E as _ _ <-. destruct I.
  - discriminate E.
  - discriminate E.
Qed.

(** * Further properties of the store helpers and the handler *)

(** ** Invariants of a run *)

Lemma strictEq_false_iff (a b : jsstring) : strictEq a b = false <-> a <> b.
Proof.
  split.
  - intros H E. apply strictEq_true_iff in E. congruence.
  - intros H. destruct (strictEq a b) eqn:E; [|reflexivity].
    apply strictEq_true_iff in E. contradiction.
Qed.

Section Invariant.

Variable unicodeLower : jsstring -> codeunit -> jsstring -> jsstring.
Variable env : Env.
Variable s : jsstring.
Variable Inv : World -> Prop.

(** The three ways a run for the sender [s] changes the world: it only
    advances the interactions and the trace, it inserts the empty profile
    of [s] when [s] has none, or it pushes a turn stamped with an earlier
    reading of the clock onto the record of [s]. *)
Hypothesis Inv_neutral :
  forall w w',
    usersCollection w' = usersCollection w ->
    conversationsCollection w' = conversationsCollection w ->
    ticks w <= ticks w' ->
    Inv w -> Inv w'.
Hypothesis Inv_insert :
  forall w w',
    profileOf s w = None ->
    usersCollection w' = usersCollection w ++ [mkUser s [] [] []] ->
    conversationsCollection w' = conversationsCollection w ->
    ticks w <= ticks w' ->
    Inv w -> Inv w'.
Hypothesis Inv_push :
  forall m r w w',
    usersCollection w' = usersCollection w ->
    conversationsCollection w' =
      updateOnePush s (mkTurn m r (dateNow env (ticks w)))
                    (conversationsCollection w) ->
    ticks w <= ticks w' ->
    Inv w -> Inv w'.

Lemma bind_invariant {A B} (m : M A) (k : A -> M B) :
  (forall w, Inv w -> Inv (fst (m w))) ->
  (forall a w, Inv w -> Inv (fst (k a w))) ->
  forall w, Inv w -> Inv (fst (bind m k w)).
Proof.
  intros Hm Hk w H. unfold bind. specialize (Hm w H).
  destruct (m w) as [w' [a|e]]; cbn [fst usersCollection conversationsCollection ticks trace] in *; auto.
Qed.

Lemma emit_invariant (ev : Event) (w : World) :
  Inv w -> Inv (fst (emit ev w)).
Proof. apply Inv_neutral; reflexivity. Qed.

Lemma updateConversationHistory_invariant (m : jsstring) (r : Role)
  (w : World) :
  Inv w -> Inv (fst (updateConversationHistory env s m r w)).
Proof.
  cbv [updateConversationHistory newDate conversations_updateOne driverCall
       bind ret throw interact emit readConversations writeConversations].
  cbn [usersCollection conversationsCollection ticks trace message role].
  destruct (storeFails env (S (ticks w))); cbn [fst usersCollection conversationsCollection ticks trace].
  - apply Inv_neutral; cbn; auto.
  - apply (Inv_push m r); cbn; auto.
Qed.

Lemma getUserProfile_invariant (w : World) :
  Inv w -> Inv (fst (getUserProfile env s w)).
Proof.
  cbv [getUserProfile users_findOne users_insertOne driverCall
       bind ret throw interact emit readUsers writeUsers].
  cbn [usersCollection conversationsCollection ticks trace].
  destruct (storeFails env (ticks w)); cbn [fst usersCollection conversationsCollection ticks trace];
    [apply Inv_neutral; cbn; auto|].
  destruct (find _ (usersCollection w)) eqn:F; cbn [fst usersCollection conversationsCollection ticks trace];
    [apply Inv_neutral; cbn; auto|].
  cbn [usersCollection conversationsCollection ticks trace].
  destruct (storeFails env (S (ticks w))); cbn [fst usersCollection conversationsCollection ticks trace].
  - apply Inv_neutral; cbn; auto.
  - apply Inv_insert; cbn; auto.
Qed.

Lemma getConversationHistory_invariant (w : World) :
  Inv w -> Inv (fst (getConversationHistory env s w)).
Proof.
  cbv [getConversationHistory conversations_findOne driverCall
       bind ret throw interact emit readConversations].
  cbn [usersCollection conversationsCollection ticks trace].
  destruct (storeFails env (ticks w)); cbn [fst usersCollection conversationsCollection ticks trace];
    [apply Inv_neutral; cbn; auto|].
  destruct (find _ (conversationsCollection w)); cbn [fst usersCollection conversationsCollection ticks trace];
    apply Inv_neutral; cbn; auto.
Qed.

Lemma record_reply_invariant (response : jsstring) (w : World) :
  Inv w ->
  Inv (fst ((updateConversationHistory env s response Bot ;; ret response) w)).
Proof.
  revert w. apply bind_invariant.
  - intros w. apply updateConversationHistory_invariant.
  - intros _ w H. exact H.
Qed.

Lemma getBotResponse_invariant (incomingMsg : jsstring) (w : World) :
  Inv w -> Inv (fst (getBotResponse unicodeLower env s incomingMsg w)).
Proof.
  revert w. unfold getBotResponse.
  apply bind_invariant; [apply getUserProfile_invariant|]. intros _.
  apply bind_invariant; [apply getConversationHistory_invariant|].
  intros fetched w. cbv zeta.
  destruct (strictEq _ _); [apply record_reply_invariant|].
  destruct (includes _ _); [apply record_reply_invariant|].
  destruct (includes _ _); [apply record_reply_invariant|].
  revert w. apply bind_invariant.
  - intros w. apply Inv_neutral; cbn; auto.
  - intros settled. apply bind_invariant.
    + intros w. destruct (settle settled); [auto|].
      apply Inv_neutral; cbn; auto.
    + intros response w. apply record_reply_invariant.
Qed.

(** Whatever the environment does, a run of the handler for a message of
    [s] keeps an invariant that the three kinds of change keep. *)
Lemma onMessage_invariant (msg : Message) (w : World) :
  msg_from msg = s ->
  Inv w -> Inv (fst (onMessage unicodeLower env msg w)).
Proof.
  intros from. revert w. unfold onMessage. rewrite from.
  apply bind_invariant; [intros w; apply emit_invariant|]. intros _.
  apply bind_invariant; [intros w; apply updateConversationHistory_invariant|].
  intros _.
  apply bind_invariant; [intros w; apply getBotResponse_invariant|].
  intros botResponse.
  apply bind_invariant; [intros w; apply emit_invariant|].
  intros _ w. apply emit_invariant.
Qed.

End Invariant.

Lemma find_hd_filter {A} (p : A -> bool) (l : list A) :
  find p l = hd_error (filter p l).
Proof.
  induction l as [|x l IH]; simpl; [reflexivity|].
  destruct (p x); [reflexivity | exact IH].
Qed.

Lemma filter_updateOnePush_other (s s' : jsstring) (entry : Turn)
  (docs : list Conversation) :
  s' <> s ->
  filter (fun c => strictEq (conv_sender c) s') (updateOnePush s entry docs)
  = filter (fun c => strictEq (conv_sender c) s') docs.
Proof.
  intros N. assert (F : strictEq s s' = false)
    by (apply strictEq_false_iff; congruence).
  induction docs as [|d docs IH]; simpl.
  - rewrite F. reflexivity.
  - destruct (strictEq (conv_sender d) s) eqn:E; simpl.
    + apply strictEq_true_iff in E. rewrite E, F. reflexivity.
    + rewrite IH. reflexivity.
Qed.

Lemma filter_updateOnePush_length (s s' : jsstring) (entry : Turn)
  (docs : list Conversation) :
  filter (fun c => strictEq (conv_sender c) s) docs <> [] ->
  length (filter (fun c => strictEq (conv_sender c) s')
                 (updateOnePush s entry docs))
  = length (filter (fun c => strictEq (conv_sender c) s') docs).
Proof.
  induction docs as [|d docs IH]; simpl; [congruence|].
  destruct (strictEq (conv_sender d) s) eqn:E; simpl.
  - intros _. destruct (strictEq (conv_sender d) s'); reflexivity.
  - intros H. destruct (strictEq (conv_sender d) s'); simpl; rewrite IH; auto.
Qed.

Lemma In_updateOnePush (s : jsstring) (entry : Turn)
  (docs : list Conversation) (c : Conversation) :
  In c (updateOnePush s entry docs) ->
  In c docs
  \/ c = mkConversation s [entry]
  \/ exists d, In d docs
               /\ c = mkConversation (conv_sender d) (history d ++ [entry]).
Proof.
  induction docs as [|d docs IH]; simpl.
  - intros [<- | []]. auto.
  - destruct (strictEq (conv_sender d) s); simpl.
    + intros [<- | H]; [|auto]. right. right. exists d. auto.
    + intros [<- | H]; [auto|].
      destruct (IH H) as [H1 | [H1 | (d' & H1 & H2)]]; eauto 6.
Qed.

Lemma nonDecreasing_snoc (ts : list Z) (t : Z) :
  nonDecreasing ts -> Forall (fun x => (x <= t)%Z) ts ->
  nonDecreasing (ts ++ [t]).
Proof.
  induction ts as [|a ts IH]; [intros; exact I|].
  intros N F. inversion F as [|? ? Ha Hts]; subst.
  destruct ts as [|b ts].
  - simpl. auto.
  - destruct N as [Hab N]. split; [exact Hab|]. apply IH; assumption.
Qed.

Section Isolation.

Variable unicodeLower : jsstring -> codeunit -> jsstring -> jsstring.
Variable env : Env.

Lemma onMessage_other_sender (msg : Message) (w : World) (other : jsstring) :
  other <> msg_from msg ->
  profilesOf other (fst (onMessage unicodeLower env msg w))
  = profilesOf other w
  /\ recordsOf other (fst (onMessage unicodeLower env msg w))
     = recordsOf other w.
Proof.
  intros N.
  assert (F : strictEq (msg_from msg) other = false)
    by (apply strictEq_false_iff; congruence).
  apply (@onMessage_invariant unicodeLower env (msg_from msg)
           (fun v => profilesOf other v = profilesOf other w
                     /\ recordsOf other v = recordsOf other w)).
  - intros v v' U C _ [P R]. unfold profilesOf, recordsOf in *.
    rewrite U, C. auto.
  - intros v v' _ U C _ [P R]. unfold profilesOf, recordsOf in *.
    rewrite U, C, filter_app. simpl. rewrite F, app_nil_r. auto.
  - intros m r v v' U C _ [P R]. unfold profilesOf, recordsOf in *.
    rewrite U, C, filter_updateOnePush_other by exact N. auto.
  - reflexivity.
  - auto.
Qed.

Lemma historyOf_recordsOf (s : jsstring) (w w' : World) :
  recordsOf s w' = recordsOf s w -> historyOf s w' = historyOf s w.
Proof.
  unfold historyOf, recordOf, recordsOf. rewrite !find_hd_filter.
  intros ->. reflexivity.
Qed.

(** X1: whatever the environment does, a run of the handler for a message
    of one sender leaves the profiles and the conversation records of
    every other sender as they were. *)
Theorem other_senders_untouched (msg : Message) (w : World) (other : jsstring) :
  other <> msg_from msg ->
  let w' := fst (onMessage unicodeLower env msg w) in
  profilesOf other w' = profilesOf other w
  /\ recordsOf other w' = recordsOf other w
  /\ profileOf other w' = profileOf other w
  /\ historyOf other w' = historyOf other w.
Proof.
  intros N w'. destruct (onMessage_other_sender msg w N) as [P R].
  fold w' in P, R. split; [exact P|]. split; [exact R|]. split.
  - unfold profileOf, profilesOf in *. rewrite !find_hd_filter, P.
    reflexivity.
  - apply historyOf_recordsOf. exact R.
Qed.

(** X4: if no sender has two profiles or two conversation records, no
    sequence of handler runs, one after the other, makes a second one,
    whatever the environment does. *)
Theorem one_document_per_sender_kept (msgs : list Message) (w : World) :
  OneDocumentPerSender w ->
  OneDocumentPerSender (deliver unicodeLower env msgs w).
Proof.
  revert w. induction msgs as [|msg msgs IH]; intros w H; [exact H|].
  rewrite deliver_cons. apply IH.
  apply (@onMessage_invariant unicodeLower env (msg_from msg)
           OneDocumentPerSender); auto.
  - intros v v' U C _ I s. unfold profilesOf, recordsOf.
    rewrite U, C. apply I.
  - intros v v' None U C _ I s. destruct (I s) as [P R]. split.
    + unfold profilesOf. rewrite U, filter_app, length_app. simpl.
      destruct (strictEq (msg_from msg) s) eqn:E; simpl.
      * apply strictEq_true_iff in E. subst s.
        apply find_none_filter in None. unfold profilesOf.
        unfold profileOf in None. rewrite None. simpl. lia.
      * fold (profilesOf s v). lia.
    + unfold recordsOf. rewrite C. exact R.
  - intros m r v v' U C _ I s. destruct (I s) as [P R]. split.
    + unfold profilesOf. rewrite U. exact P.
    + unfold recordsOf. rewrite C.
      destruct (filter (fun c => strictEq (conv_sender c) (msg_from msg))
                       (conversationsCollection v)) eqn:E.
      * rewrite (updateOnePush_fresh _ _ _ E), filter_app, length_app. simpl.
        destruct (strictEq (msg_from msg) s) eqn:E'; simpl.
        -- apply strictEq_true_iff in E'. subst s. rewrite E. simpl. lia.
        -- fold (recordsOf s v). lia.
      * rewrite filter_updateOnePush_length by (rewrite E; discriminate).
        exact R.
Qed.

(** X5: with a clock that never goes back, if in every record the turns
    are in the order of their instants and none is later than the clock,
    this still holds after any sequence of handler runs, whatever the
    store and the completion service do. *)
Theorem chronological_kept (msgs : list Message) (w : World) :
  MonotoneClock env ->
  Chronological env w ->
  Chronological env (deliver unicodeLower env msgs w).
Proof.
  intros clock. revert w. induction msgs as [|msg msgs IH]; intros w H;
    [exact H|].
  rewrite deliver_cons. apply IH.
  assert (Weaken : forall v v' h,
             ticks v <= ticks v' ->
             Forall (fun t => (timestamp t <= dateNow env (ticks v))%Z) h ->
             Forall (fun t => (timestamp t <= dateNow env (ticks v'))%Z) h).
  { intros v v' h L. apply Forall_impl. intros t Ht.
    specialize (clock _ _ L). lia. }
  apply (@onMessage_invariant unicodeLower env (msg_from msg)
           (Chronological env)); auto.
  - intros v v' _ C L Hv c Hc. rewrite C in Hc. destruct (Hv c Hc) as [N B].
    split; [exact N | exact (Weaken v v' _ L B)].
  - intros v v' _ _ C L Hv c Hc. rewrite C in Hc. destruct (Hv c Hc) as [N B].
    split; [exact N | exact (Weaken v v' _ L B)].
  - intros m r v v' _ C L Hv c Hc. rewrite C in Hc.
    apply In_updateOnePush in Hc.
    destruct Hc as [Hc | [-> | (d & Hd & ->)]].
    + destruct (Hv c Hc) as [N B].
      split; [exact N | exact (Weaken v v' _ L B)].
    + simpl. split; [exact I|]. constructor; [|constructor].
      simpl. apply clock. exact L.
    + destruct (Hv d Hd) as [N B]. cbn [history]. split.
      * rewrite map_app. apply nonDecreasing_snoc; [exact N|].
        apply Forall_map. exact B.
      * apply Forall_app. split; [exact (Weaken v v' _ L B)|].
        constructor; [|constructor]. simpl. apply clock. exact L.
Qed.

End Isolation.

(** ** Runs under any environment *)

Lemma sliceLast_app {A} (n : nat) (l suffix : list A) :
  length suffix <= n ->
  sliceLast n (l ++ suffix) = sliceLast (n - length suffix) l ++ suffix.
Proof.
  intros L. unfold sliceLast. rewrite length_app, skipn_app.
  replace (length l + length suffix - n - length l) with 0 by lia.
  replace (length l + length suffix - n)
    with (length l - (n - length suffix)) by lia.
  reflexivity.
Qed.

Lemma find_app_none {A} (p : A -> bool) (l l' : list A) :
  find p l = None -> find p (l ++ l') = find p l'.
Proof.
  induction l as [|x l IH]; simpl; [reflexivity|].
  destruct (p x); [discriminate | exact IH].
Qed.

Section AnyEnvironment.

Variable unicodeLower : jsstring -> codeunit -> jsstring -> jsstring.
Variable env : Env.

Lemma onMessage_keeps_human_turn (msg : Message) (w : World) :
  storeFails env (S (ticks w)) = false ->
  let s := msg_from msg in
  let m := trim (msg_body msg) in
  exists later,
    historyOf s (fst (onMessage unicodeLower env msg w))
    = historyOf s w ++ mkTurn m Human (dateNow env (ticks w)) :: later.
Proof.
  intros ok s m. unfold onMessage, logger_info. fold s m.
  unfold bind at 1. cbv [emit].
  erewrite bind_returned by (apply updateConversationHistory_run; exact ok).
  cbn [usersCollection conversationsCollection ticks trace].
  match goal with
  | |- context [bind ?first ?rest ?w1] =>
      assert (E : Extends w1 (fst (bind first rest w1)))
  end.
  { apply bind_extends.
    - intros v. apply getBotResponse_extends.
    - intros r v. apply bind_extends; intros; apply Extends_same; reflexivity. }
  destruct E as [_ R].
  destruct (@ExtendsRecords_history unicodeLower s _ _ R) as [added R'].
  unfold historyOf at 1. unfold recordOf. rewrite R'.
  cbn [conversationsCollection].
  change (match find (fun c => strictEq (conv_sender c) s)
                  (updateOnePush s (mkTurn m Human (dateNow env (ticks w)))
                                 (conversationsCollection w)) with
          | Some c => history c
          | None => []
          end)
    with (historyOf s (mkWorld [] (updateOnePush s
                                     (mkTurn m Human (dateNow env (ticks w)))
                                     (conversationsCollection w)) 0 [])).
  rewrite historyOf_updateOnePush.
  exists added. rewrite <- app_assoc. reflexivity.
Qed.


(** X3: once the append of the Human turn has succeeded, the turn is in the
    sender's record at the end of the run, whatever fails afterwards: the
    record is what it was, then that turn, then what the rest of the run
    added. *)
Theorem human_turn_durable (msg : Message) (w : World) :
  storeFails env (S (ticks w)) = false ->
  let s := msg_from msg in
  let m := trim (msg_body msg) in
  let w' := fst (onMessage unicodeLower env msg w) in
  (exists later,
      historyOf s w'
      = historyOf s w ++ mkTurn m Human (dateNow env (ticks w)) :: later)
  /\ length (historyOf s w) < length (historyOf s w').
Proof.
  intros ok s m w'.
  destruct (onMessage_keeps_human_turn msg w ok) as [later H].
  fold s m w' in H. split; [exists later; exact H|].
  rewrite H, length_app. simpl. lia.
Qed.

(** X6: each store helper touches one collection only, also when its
    driver call fails: reading the recent history changes neither
    collection, loading a profile leaves the conversation records alone,
    and appending a turn leaves the profiles alone. *)
Theorem helper_footprints (s m : jsstring) (r : Role) (w : World) :
  (usersCollection (fst (getConversationHistory env s w)) = usersCollection w
   /\ conversationsCollection (fst (getConversationHistory env s w))
      = conversationsCollection w)
  /\ conversationsCollection (fst (getUserProfile env s w))
     = conversationsCollection w
  /\ usersCollection (fst (updateConversationHistory env s m r w))
     = usersCollection w.
Proof.
  cbv [getConversationHistory conversations_findOne getUserProfile
       users_findOne users_insertOne updateConversationHistory newDate
       conversations_updateOne driverCall bind ret throw interact emit
       readConversations writeConversations readUsers writeUsers].
  cbn [usersCollection conversationsCollection ticks trace].
  repeat split.
  - destruct (storeFails env (ticks w)); [reflexivity|].
    cbn [fst usersCollection conversationsCollection ticks trace].
    destruct (find _ _); reflexivity.
  - destruct (storeFails env (ticks w)); [reflexivity|].
    cbn [fst usersCollection conversationsCollection ticks trace].
    destruct (find _ _); reflexivity.
  - destruct (storeFails env (ticks w)); [reflexivity|].
    cbn [fst usersCollection conversationsCollection ticks trace].
    destruct (find _ _); [reflexivity|].
    cbn [fst usersCollection conversationsCollection ticks trace].
    destruct (storeFails env (S (ticks w))); reflexivity.
  - destruct (storeFails env (S (ticks w))); reflexivity.
Qed.

(** X7: a turn that was appended is the last entry of the next read of the
    recent history, formatted as "role: message"; before it come the
    entries of the 19 most recent turns the record had (all of them when
    there were fewer), in the order of the record. *)
Theorem append_then_read (s m : jsstring) (r : Role) (w : World) :
  storeFails env (S (ticks w)) = false ->
  storeFails env (S (S (ticks w))) = false ->
  exists dropped older,
    snd (getConversationHistory env s
           (fst (updateConversationHistory env s m r w)))
    = Returned (older ++ [roleName r ++ lit ": " ++ m])
    /\ map formatEntry (historyOf s w) = dropped ++ older
    /\ length older = Nat.min 19 (length (historyOf s w)).
Proof.
  intros ok1 ok2.
  rewrite (updateConversationHistory_run env s m r w ok1). cbn [fst].
  rewrite getConversationHistory_run by exact ok2. cbn [snd].
  rewrite historyOf_updateOnePush.
  rewrite (@sliceLast_app _ 20 (historyOf s w) [_]) by (simpl; lia).
  rewrite map_app. cbn [length Nat.sub].
  destruct (sliceLast_suffix 19 (historyOf s w)) as [dropped E].
  exists (map formatEntry dropped), (map formatEntry (sliceLast 19 (historyOf s w))).
  split; [reflexivity|]. split.
  - rewrite <- map_app, <- E. reflexivity.
  - rewrite length_map, sliceLast_length. reflexivity.
Qed.

(** X8: loading a profile twice gives the same profile, a profile of the
    sender, and the second load inserts nothing: after a load the sender
    has the profile that was returned. *)
Theorem getUserProfile_idempotent (s : jsstring) (w : World) :
  NoStoreFailure env ->
  let first := getUserProfile env s w in
  let second := getUserProfile env s (fst first) in
  exists user,
    snd first = Returned user
    /\ sender user = s
    /\ profileOf s (fst first) = Some user
    /\ snd second = Returned user
    /\ usersCollection (fst second) = usersCollection (fst first).
Proof.
  intros ok first second.
  assert (E1 : first = getUserProfile env s w) by reflexivity.
  rewrite (getUserProfile_run env s w (ok _) (fun _ => ok _)) in E1.
  assert (P : exists user,
             snd first = Returned user /\ sender user = s
             /\ profileOf s (fst first) = Some user).
  { rewrite E1. cbn [fst snd]. unfold missingProfile, profileOf.
    cbn [usersCollection].
    destruct (find (fun u => strictEq (sender u) s) (usersCollection w))
      as [user|] eqn:F.
    - exists user. split; [reflexivity|]. split.
      + apply find_some in F. apply strictEq_true_iff. apply F.
      + rewrite app_nil_r. exact F.
    - eexists. split; [reflexivity|]. split; [reflexivity|].
      rewrite (find_app_none _ _ _ F). simpl. rewrite strictEq_refl.
      reflexivity. }
  destruct P as (user & R1 & S1 & P1). exists user.
  split; [exact R1|]. split; [exact S1|]. split; [exact P1|].
  subst second.
  rewrite (getUserProfile_run env s (fst first) (ok _) (fun _ => ok _)).
  unfold missingProfile. rewrite P1. cbn [fst snd usersCollection].
  rewrite app_nil_r. split; reflexivity.
Qed.

Lemma record_reply_returned (s response a : jsstring) (w w' : World) :
  (updateConversationHistory env s response Bot ;; ret response) w
  = (w', Returned a) ->
  a = response
  /\ exists instant,
       conversationsCollection w'
       = updateOnePush s (mkTurn response Bot instant)
                       (conversationsCollection w).
Proof.
  cbv [updateConversationHistory newDate conversations_updateOne driverCall
       bind ret throw interact emit readConversations writeConversations].
  cbn [usersCollection conversationsCollection ticks trace message role].
  destruct (storeFails env (S (ticks w))); [discriminate|].
  intros H. injection H as <- <-. split; [reflexivity|].
  eexists. reflexivity.
Qed.

Lemma getBotResponse_returned (s incomingMsg reply : jsstring)
  (w w' : World) :
  getBotResponse unicodeLower env s incomingMsg w = (w', Returned reply) ->
  exists earlier instant,
    historyOf s w' = earlier ++ [mkTurn reply Bot instant].
Proof.
  unfold getBotResponse. intros H.
  apply bind_returned_inv in H as (user & w1 & _ & H).
  apply bind_returned_inv in H as (fetched & w2 & _ & H). cbv zeta in H.
  assert (Done : forall response v,
             (updateConversationHistory env s response Bot ;; ret response) v
             = (w', Returned reply) ->
             exists earlier instant,
               historyOf s w' = earlier ++ [mkTurn reply Bot instant]).
  { intros response v E.
    apply record_reply_returned in E as [-> [instant C]].
    exists (historyOf s v), instant.
    apply (@historyOf_after_push s _ v w' C). }
  destruct (strictEq _ _); [exact (Done _ _ H)|].
  destruct (includes _ _); [exact (Done _ _ H)|].
  destruct (includes _ _); [exact (Done _ _ H)|].
  apply bind_returned_inv in H as (settled & w3 & _ & H).
  apply bind_returned_inv in H as (response & w4 & _ & H).
  exact (Done _ _ H).
Qed.

(** X15: whatever the environment does, a run of the handler that returns
    has sent exactly one reply, and that reply is the Bot turn at the end
    of the sender's record; a run that throws has sent none. *)
Theorem one_reply_per_completed_run (msg : Message) (w : World) :
  let s := msg_from msg in
  let run := onMessage unicodeLower env msg w in
  let evs := emittedBy (onMessage unicodeLower env msg) w in
  (snd run = Returned tt ->
   exists reply earlier instant,
     repliesIn evs = [reply]
     /\ historyOf s (fst run) = earlier ++ [mkTurn reply Bot instant])
  /\ (forall e, snd run = Thrown e -> repliesIn evs = []).
Proof.
  intros s.
  set (m := trim (msg_body msg)).
  set (steps :=
         (logger_info (lit "Received message from " ++ s ++ lit ": " ++ m) ;;
          updateConversationHistory env s m Human) ;;
         getBotResponse unicodeLower env s m).
  set (finish := fun botResponse =>
         msg_reply msg botResponse ;;
         logger_info (lit "Sent response to " ++ s ++ lit ": " ++ botResponse)).
  assert (E : onMessage unicodeLower env msg w = bind steps finish w).
  { unfold steps. rewrite !bind_bind. reflexivity. }
  assert (S : StopsAtFailure env steps).
  { apply bind_stops; [apply bind_stops|].
    - apply emit_stops. reflexivity.
    - intros _. apply updateConversationHistory_stops.
    - intros _. apply getBotResponse_stops. }
  cbv zeta. unfold emittedBy. rewrite E.
  destruct (S w) as (evs & T & R & _).
  destruct (steps w) as [w1 [botResponse|e1]] eqn:Run;
    unfold bind; rewrite Run; cbn [fst snd] in *.
  - split; [intros _ | discriminate].
    unfold steps in Run. rewrite bind_bind in Run.
    apply bind_returned_inv in Run as (u & v1 & _ & Run).
    apply bind_returned_inv in Run as (u' & v2 & _ & Run).
    apply getBotResponse_returned in Run as (earlier & instant & H).
    exists botResponse, earlier, instant.
    unfold finish, msg_reply, logger_info, bind, emit.
    cbn [fst snd usersCollection conversationsCollection ticks trace].
    rewrite T, <- !app_assoc, skipn_own_length, !repliesIn_app, R.
    split; [reflexivity|].
    destruct w1. exact H.
  - split; [discriminate | intros e _].
    rewrite T, skipn_own_length. exact R.
Qed.

End AnyEnvironment.

(** ** Runs without store failure *)

Lemma repliesTo_app (s : jsstring) (a b : list Event) :
  repliesTo s (a ++ b) = repliesTo s a ++ repliesTo s b.
Proof. apply flat_map_app. Qed.

Lemma repliesTo_none (s : jsstring) (evs : list Event) :
  repliesIn evs = [] -> repliesTo s evs = [].
Proof.
  induction evs as [|ev evs IH]; [reflexivity|].
  destruct ev; simpl; try exact IH. discriminate.
Qed.

Section Conversations.

Variable unicodeLower : jsstring -> codeunit -> jsstring -> jsstring.
Variable env : Env.

Lemma onMessage_replies_to (msg : Message) (w : World) :
  NoStoreFailure env ->
  let w' := fst (onMessage unicodeLower env msg w) in
  exists reply instant evs,
    trace w' = trace w ++ evs
    /\ (forall s, repliesTo s evs
                  = if strictEq (msg_from msg) s then [reply] else [])
    /\ historyOf (msg_from msg) w' =
       historyOf (msg_from msg) w
         ++ [mkTurn (trim (msg_body msg)) Human (dateNow env (ticks w));
             mkTurn reply Bot instant].
Proof.
  intros ok w'.
  destruct (onMessage_run unicodeLower msg w ok)
    as (reply & gw & instant & n & G & R).
  cbv zeta in R. exists reply, instant. eexists. subst w'. rewrite R.
  cbn [fst trace]. split; [reflexivity|]. split.
  - intros s.
    rewrite !repliesTo_app, (@repliesTo_none s _ (repliesIn_inserts _)),
      (@repliesTo_none s _ (@GatewayStep_replies _ _ _ _ _ _ G)).
    simpl. destruct (strictEq (msg_from msg) s); reflexivity.
  - set (human := mkTurn _ Human _).
    set (w1 := mkWorld [] (updateOnePush (msg_from msg) human
                             (conversationsCollection w)) 0 []).
    match goal with
    | |- historyOf _ ?w2 = _ =>
        rewrite (@historyOf_after_push (msg_from msg)
                   (mkTurn reply Bot instant) w1 w2 eq_refl)
    end.
    rewrite (@historyOf_after_push (msg_from msg) human w w1 eq_refl).
    rewrite <- app_assoc. reflexivity.
Qed.

Lemma deliver_history_of (s : jsstring) (msgs : list Message) :
  NoStoreFailure env ->
  forall w,
  exists evs,
    trace (deliver unicodeLower env msgs w) = trace w ++ evs
    /\ length (repliesTo s evs)
       = length (filter (fun msg => strictEq (msg_from msg) s) msgs)
    /\ map turnView (historyOf s (deliver unicodeLower env msgs w))
       = map turnView (historyOf s w)
         ++ exchange (map msg_body
                        (filter (fun msg => strictEq (msg_from msg) s) msgs))
                     (repliesTo s evs).
Proof.
  intros ok. induction msgs as [|msg msgs IH]; intros w.
  - exists []. simpl. rewrite !app_nil_r. auto.
  - rewrite deliver_cons.
    destruct (onMessage_replies_to msg w ok)
      as (reply & instant & evs1 & T & R & H).
    cbv zeta in T, H.
    destruct (IH (fst (onMessage unicodeLower env msg w)))
      as (evs2 & T2 & L2 & H2).
    exists (evs1 ++ evs2). rewrite T2, T, <- app_assoc.
    split; [reflexivity|].
    rewrite H2, repliesTo_app, length_app, R. simpl filter.
    destruct (strictEq (msg_from msg) s) eqn:E.
    + apply strictEq_true_iff in E. split; [simpl; congruence|].
      rewrite <- E, H, map_app, <- app_assoc. reflexivity.
    + apply strictEq_false_iff in E. split; [simpl; exact L2|].
      rewrite (@historyOf_recordsOf s w _
                 (proj2 (@onMessage_other_sender unicodeLower env msg w s
                           (fun Q => E (eq_sym Q))))).
      reflexivity.
Qed.

(** X2: when messages of several senders are handled one after the other
    without a store failure, each of a sender's messages gets one reply,
    and the record of the sender grows by the exchange with that sender
    alone: for each of the sender's messages, in the order sent, a Human
    turn with the trimmed body and a Bot turn with the reply to it. *)
Theorem deliver_per_sender (s : jsstring) (msgs : list Message) (w : World) :
  NoStoreFailure env ->
  let w' := deliver unicodeLower env msgs w in
  let evs := skipn (length (trace w)) (trace w') in
  let own := filter (fun msg => strictEq (msg_from msg) s) msgs in
  length (repliesTo s evs) = length own
  /\ map turnView (historyOf s w')
     = map turnView (historyOf s w)
       ++ exchange (map msg_body own) (repliesTo s evs)
  /\ length (historyOf s w') = length (historyOf s w) + 2 * length own.
Proof.
  intros ok w' evs own.
  destruct (deliver_history_of s msgs ok w) as (evs' & T & L & H).
  fold w' in T, H. fold own in L, H.
  assert (E : evs = evs') by (subst evs; rewrite T; apply skipn_own_length).
  rewrite E. split; [exact L|]. split; [exact H|].
  rewrite <- (length_map turnView (historyOf s w')), H, length_app,
    length_map, exchange_length; rewrite ?length_map; auto.
Qed.

(** X16: the exchange just recorded is part of the next prompt: when a
    sender's next message goes to the completion service, the context ends
    with the previous message, the reply that was sent to it, and the new
    message twice. *)
Theorem previous_exchange_in_prompt (first next : Message) (w : World) :
  NoStoreFailure env ->
  msg_from next = msg_from first ->
  matchRule (toLowerCase unicodeLower (trim (msg_body next))) = None ->
  let w1 := fst (onMessage unicodeLower env first w) in
  exists reply older,
    repliesIn (emittedBy (onMessage unicodeLower env first) w) = [reply]
    /\ promptsIn (emittedBy (onMessage unicodeLower env next) w1)
       = [buildPrompt
            (older ++ [lit "Human: " ++ trim (msg_body first);
                       lit "Bot: " ++ reply;
                       lit "Human: " ++ trim (msg_body next);
                       lit "Human: " ++ trim (msg_body next)])].
Proof.
  intros ok from miss w1.
  destruct (@onMessage_history unicodeLower env first w ok)
    as (reply & instant & evs & T & R & H).
  cbv zeta in T, H. fold w1 in T, H.
  pose proof (@onMessage_gateway_prompt unicodeLower env next w1
                (fun n _ => ok n) miss) as P.
  rewrite from, H, <- app_assoc in P. cbn [app] in P.
  rewrite (@sliceLast_app _ 20 (historyOf (msg_from first) w) [_; _; _])
    in P by (simpl; lia).
  rewrite map_app, <- app_assoc in P.
  exists reply. eexists. split.
  - rewrite (@emittedBy_app _ _ _ _ T). exact R.
  - exact P.
Qed.

(** X9: the context of a prompt is bounded.  Its entries are the formatted
    19 most recent turns the sender's record had (all of them when there
    were fewer), in the order of the record, then the entry of the Human
    turn just appended, then the message once more: between 2 and 21
    entries, whatever the length of the record. *)
Theorem prompt_context_bounded (msg : Message) (w : World) :
  (forall n, n <= ticks w + 4 -> storeFails env n = false) ->
  matchRule (toLowerCase unicodeLower (trim (msg_body msg))) = None ->
  let s := msg_from msg in
  let line := lit "Human: " ++ trim (msg_body msg) in
  exists dropped kept,
    map formatEntry (historyOf s w) = dropped ++ kept
    /\ length kept = Nat.min 19 (length (historyOf s w))
    /\ promptsIn (emittedBy (onMessage unicodeLower env msg) w)
       = [buildPrompt (kept ++ [line; line])]
    /\ 2 <= length (kept ++ [line; line]) <= 21.
Proof.
  intros ok miss s line.
  pose proof (@onMessage_gateway_prompt unicodeLower env msg w ok miss) as P.
  cbv zeta in P. fold s in P.
  rewrite (@sliceLast_app _ 20 (historyOf s w) [_]) in P by (simpl; lia).
  cbn [length Nat.sub] in P. rewrite map_app, <- app_assoc in P.
  destruct (sliceLast_suffix 19 (historyOf s w)) as [dropped E].
  exists (map formatEntry dropped),
         (map formatEntry (sliceLast 19 (historyOf s w))).
  split; [rewrite <- map_app, <- E; reflexivity|].
  split; [rewrite length_map, sliceLast_length; reflexivity|].
  split; [exact P|].
  rewrite length_app, length_map, sliceLast_length. cbn [length]. lia.
Qed.

End Conversations.

(** ** What the handler stores and answers *)

Lemma trimStart_spec (s : jsstring) :
  exists ws,
    s = ws ++ trimStart s
    /\ forallb isWhiteSpace ws = true
    /\ (forall c rest, trimStart s = c :: rest -> isWhiteSpace c = false).
Proof.
  induction s as [|a s (ws & E & W & H)]; simpl.
  - exists []. repeat split. discriminate.
  - destruct (isWhiteSpace a) eqn:Wa.
    + exists (a :: ws). simpl. rewrite Wa, W. repeat split; [congruence|].
      exact H.
    + exists []. repeat split. intros c rest Q. injection Q as <- _.
      exact Wa.
Qed.

Lemma trimStart_fixed (s : jsstring) :
  (forall c rest, s = c :: rest -> isWhiteSpace c = false) ->
  trimStart s = s.
Proof.
  destruct s as [|c s]; [reflexivity|]. intros H. simpl.
  rewrite (H c s eq_refl). reflexivity.
Qed.

Lemma trimEnd_spec (s : jsstring) :
  exists ws,
    s = trimEnd s ++ ws
    /\ forallb isWhiteSpace ws = true
    /\ (forall body c, trimEnd s = body ++ [c] -> isWhiteSpace c = false).
Proof.
  unfold trimEnd. destruct (trimStart_spec (rev s)) as (ws & E & W & H).
  exists (rev ws). split; [|split].
  - rewrite <- rev_app_distr, <- E, rev_involutive. reflexivity.
  - rewrite forallb_rev. exact W.
  - intros body c Q. apply (f_equal (@rev codeunit)) in Q.
    rewrite rev_involutive, rev_app_distr in Q. simpl in Q.
    exact (H _ _ Q).
Qed.

(** [trim] removes whitespace at both ends and nothing else. *)
Lemma trim_spec (s : jsstring) :
  exists ws1 ws2,
    s = ws1 ++ trim s ++ ws2
    /\ forallb isWhiteSpace ws1 = true
    /\ forallb isWhiteSpace ws2 = true
    /\ (forall c rest, trim s = c :: rest -> isWhiteSpace c = false)
    /\ (forall body c, trim s = body ++ [c] -> isWhiteSpace c = false).
Proof.
  unfold trim.
  destruct (trimStart_spec s) as (ws1 & E1 & W1 & H1).
  destruct (trimEnd_spec (trimStart s)) as (ws2 & E2 & W2 & H2).
  exists ws1, ws2. split; [rewrite <- E2; exact E1|].
  split; [exact W1|]. split; [exact W2|]. split; [|exact H2].
  intros c rest Q. rewrite Q in E2. simpl in E2. exact (H1 _ _ E2).
Qed.

Lemma trim_idempotent (s : jsstring) : trim (trim s) = trim s.
Proof.
  destruct (trim_spec s) as (_ & _ & _ & _ & _ & Hhead & Hlast).
  set (u := trim s) in *. unfold trim.
  rewrite (@trimStart_fixed u Hhead). unfold trimEnd.
  destruct (rev u) as [|d r] eqn:R.
  - apply (f_equal (@rev codeunit)) in R. rewrite rev_involutive in R.
    rewrite R. reflexivity.
  - assert (U : u = rev r ++ [d]).
    { apply (f_equal (@rev codeunit)) in R. rewrite rev_involutive in R.
      exact R. }
    simpl. rewrite (Hlast _ _ U). simpl. symmetry. exact U.
Qed.

Lemma trim_blank (s : jsstring) :
  forallb isWhiteSpace s = true -> trim s = [].
Proof.
  intros W. unfold trim.
  rewrite <- (app_nil_r s), trimStart_whitespace by exact W. reflexivity.
Qed.

Lemma logsIn_app (a b : list Event) : logsIn (a ++ b) = logsIn a ++ logsIn b.
Proof. apply flat_map_app. Qed.

Lemma logsIn_inserts (us : list User) : logsIn (map EvUsersInsertOne us) = [].
Proof. induction us; simpl; auto. Qed.

Section Answers.

Variable unicodeLower : jsstring -> codeunit -> jsstring -> jsstring.
Variable env : Env.

(** X11: the Human turn that is stored holds the message without the
    whitespace around it and otherwise unchanged: the body is whitespace,
    then the stored text, then whitespace; the stored text neither begins
    nor ends with whitespace, and trimming it again changes nothing. *)
Theorem stored_message_is_trimmed (msg : Message) (w : World) :
  storeFails env (S (ticks w)) = false ->
  let s := msg_from msg in
  exists stored ws1 ws2 instant later,
    historyOf s (fst (onMessage unicodeLower env msg w))
    = historyOf s w ++ mkTurn stored Human instant :: later
    /\ msg_body msg = ws1 ++ stored ++ ws2
    /\ forallb isWhiteSpace ws1 = true
    /\ forallb isWhiteSpace ws2 = true
    /\ (forall c rest, stored = c :: rest -> isWhiteSpace c = false)
    /\ (forall body c, stored = body ++ [c] -> isWhiteSpace c = false)
    /\ trim stored = stored.
Proof.
  intros ok s.
  destruct (@onMessage_keeps_human_turn unicodeLower env msg w ok)
    as [later H].
  destruct (trim_spec (msg_body msg)) as (ws1 & ws2 & E & W1 & W2 & Hd & Hl).
  exists (trim (msg_body msg)), ws1, ws2, (dateNow env (ticks w)), later.
  split; [exact H|]. split; [exact E|]. split; [exact W1|].
  split; [exact W2|]. split; [exact Hd|]. split; [exact Hl|].
  apply trim_idempotent.
Qed.

(** X10: a body of whitespace only, the empty body included, is trimmed to
    the empty message; no rule matches it, and it goes to the completion
    service with the bare line "Human: " at the end of the context, twice. *)
Theorem blank_message_reaches_gateway (msg : Message) (w : World) :
  (forall n, n <= ticks w + 4 -> storeFails env n = false) ->
  forallb isWhiteSpace (msg_body msg) = true ->
  trim (msg_body msg) = []
  /\ exists older,
       promptsIn (emittedBy (onMessage unicodeLower env msg) w)
       = [buildPrompt (older ++ [lit "Human: "; lit "Human: "])].
Proof.
  intros ok blank. pose proof (@trim_blank _ blank) as T.
  split; [exact T|].
  assert (miss : matchRule (toLowerCase unicodeLower (trim (msg_body msg)))
                 = None) by (rewrite T; reflexivity).
  pose proof (@onMessage_gateway_prompt unicodeLower env msg w ok miss) as P.
  cbv zeta in P. rewrite T in P.
  destruct (sliceLast_snoc 19 (historyOf (msg_from msg) w)
              (mkTurn [] Human (dateNow env (ticks w)))) as [older E].
  rewrite E, map_app, <- app_assoc in P.
  exists (map formatEntry older). exact P.
Qed.

(** X12: the "who are you" rule is a case-insensitive substring test: an
    ASCII message that contains the words in any mix of upper and lower
    case, anywhere, gets the self-identification reply and no completion
    request. *)
Theorem who_are_you_any_case (msg : Message) (w : World)
  (before words after : jsstring) :
  NoStoreFailure env ->
  trim (msg_body msg) = before ++ words ++ after ->
  forallb isAscii (before ++ words ++ after) = true ->
  map asciiLower words = lit "who are you" ->
  let evs := emittedBy (onMessage unicodeLower env msg) w in
  repliesIn evs = [whoAreYouReply] /\ promptsIn evs = [].
Proof.
  intros ok T A L evs.
  apply matchRule_hit_observed; [exact ok|].
  rewrite T, (@toLowerCase_ascii unicodeLower _ A), !map_app, L.
  assert (I : includes (map asciiLower before ++ lit "who are you"
                          ++ map asciiLower after)
                       (lit "who are you") = true)
    by (apply includes_occurs; eauto).
  unfold matchRule.
  rewrite (@hi_excludes _ (lit "who are you") eq_refl I), I. reflexivity.
Qed.

(** X13: the log of a run without store failure: the line for the message
    received, the line for the reply sent, and between them an error line
    exactly when the completion request was made and failed.  When a rule
    matches there is no request and no error line; when none matches, the
    one request is answered by the service, and the run logs the error and
    replies with the fallback if that answer is a failure, and logs no
    error and replies with the answer otherwise. *)
Theorem log_lines_of_a_run (msg : Message) (w : World) :
  NoStoreFailure env ->
  let s := msg_from msg in
  let m := trim (msg_body msg) in
  let evs := emittedBy (onMessage unicodeLower env msg) w in
  let human := mkTurn m Human (dateNow env (ticks w)) in
  let prompt :=
    buildPrompt (map formatEntry (sliceLast 20 (historyOf s w ++ [human]))
                 ++ [lit "Human: " ++ m]) in
  let answer :=
    openaiCreate env (ticks w + 4 + length (missingProfile s w)) prompt in
  exists reply errors,
    repliesIn evs = [reply]
    /\ logsIn evs
       = [(Info, lit "Received message from " ++ s ++ lit ": " ++ m)]
         ++ errors
         ++ [(Info, lit "Sent response to " ++ s ++ lit ": " ++ reply)]
    /\ match matchRule (toLowerCase unicodeLower m) with
       | Some r => promptsIn evs = [] /\ errors = [] /\ reply = r
       | None =>
           promptsIn evs = [prompt]
           /\ match settle answer with
              | inl text => errors = [] /\ reply = text
              | inr error =>
                  errors = [(Error, lit "OpenAI API error: " ++ error)]
                  /\ reply = fallbackReply
              end
       end.
Proof.
  intros ok s m evs human prompt answer.
  destruct (@onMessage_scheduled_run unicodeLower env msg w (fun n _ => ok n))
    as (reply & gw & w' & Run & G & T).
  fold s m human in G, T.
  assert (E : evs = skipn (length (trace w)) (trace w'))
    by (subst evs; unfold emittedBy; rewrite Run; reflexivity).
  rewrite T, skipn_own_length in E.
  unfold GatewayStepAt in G. fold prompt answer in G.
  assert (Q : repliesIn gw = [] /\ promptsIn evs = promptsIn gw
              /\ logsIn evs
                 = [(Info, lit "Received message from " ++ s ++ lit ": " ++ m)]
                   ++ logsIn gw
                   ++ [(Info, lit "Sent response to " ++ s ++ lit ": "
                                ++ reply)]).
  { split; [|split].
    - destruct (matchRule _); [destruct G as [_ ->]; reflexivity|].
      destruct (settle answer); destruct G as [_ ->]; reflexivity.
    - rewrite E, !promptsIn_app, promptsIn_inserts. simpl.
      rewrite app_nil_r. reflexivity.
    - rewrite E, !logsIn_app, logsIn_inserts. reflexivity. }
  destruct Q as (Rg & Pg & Lg).
  exists reply, (logsIn gw). split; [|split; [exact Lg|]].
  - rewrite E, !repliesIn_app, repliesIn_inserts, Rg. reflexivity.
  - rewrite Pg. destruct (matchRule (toLowerCase unicodeLower m)).
    + destruct G as [-> ->]. repeat split.
    + destruct (settle answer); destruct G as [-> ->]; repeat split.
Qed.

(** X14: when the completion service answers, the reply is the content of
    the first choice, trimmed; further choices are ignored and no error is
    logged. *)
Theorem gateway_success_reply (msg : Message) (w : World)
  (text : jsstring) (others : list Choice) :
  NoStoreFailure env ->
  matchRule (toLowerCase unicodeLower (trim (msg_body msg))) = None ->
  (forall n prompt,
      openaiCreate env n prompt
      = Resolved (mkChatCompletion (mkChoice (Some text) :: others))) ->
  let evs := emittedBy (onMessage unicodeLower env msg) w in
  repliesIn evs = [trim text]
  /\ Forall (fun line => fst line = Info) (logsIn evs).
Proof.
  intros ok miss answer evs.
  destruct (@onMessage_summary unicodeLower env msg w ok)
    as (reply & gw & instant & G & _ & E & _).
  fold evs in E. unfold GatewayStep in G. rewrite miss in G.
  destruct G as [n G]. cbv zeta in G. rewrite answer in G.
  cbn [settle thenCallback choices content] in G. destruct G as [-> ->].
  rewrite E. split.
  - rewrite !repliesIn_app, repliesIn_inserts. reflexivity.
  - rewrite !logsIn_app, logsIn_inserts. simpl.
    repeat constructor.
Qed.

End Answers.

(** ** Profiles are written once *)

Lemma find_app_some {A} (p : A -> bool) (l l' : list A) (x : A) :
  find p l = Some x -> find p (l ++ l') = Some x.
Proof.
  induction l as [|y l IH]; simpl; [discriminate|].
  destruct (p y); [auto | exact IH].
Qed.

Section Profiles.

Variable unicodeLower : jsstring -> codeunit -> jsstring -> jsstring.
Variable env : Env.

Lemma onMessage_new_profiles (msg : Message) (w : World) (user : User) :
  In user (usersCollection (fst (onMessage unicodeLower env msg w))) ->
  In user (usersCollection w) \/ user = mkUser (msg_from msg) [] [] [].
Proof.
  revert user.
  apply (@onMessage_invariant unicodeLower env (msg_from msg)
           (fun v => forall user,
                In user (usersCollection v) ->
                In user (usersCollection w)
                \/ user = mkUser (msg_from msg) [] [] [])).
  - intros v v' U _ _ H user. rewrite U. apply H.
  - intros v v' _ U _ _ H user. rewrite U, in_app_iff. simpl.
    intros [Hin | [<- | []]]; auto.
  - intros m r v v' U _ _ H user. rewrite U. apply H.
  - reflexivity.
  - auto.
Qed.

(** X17: the handler never changes a profile: whatever the environment
    does, after any sequence of runs a sender who had a profile still has
    that same profile, and every profile of the collection was either
    there before or is the empty profile of the sender of one of the
    messages. *)
Theorem profiles_never_modified (msgs : list Message) (w : World) :
  let w' := deliver unicodeLower env msgs w in
  (forall s user, profileOf s w = Some user -> profileOf s w' = Some user)
  /\ (forall user,
        In user (usersCollection w') ->
        In user (usersCollection w)
        \/ exists msg, In msg msgs /\ user = mkUser (msg_from msg) [] [] []).
Proof.
  intros w'. split.
  - intros s user H.
    destruct (deliver_extends unicodeLower env msgs w) as [[added U] _].
    fold w' in U. unfold profileOf in *. rewrite U.
    apply find_app_some. exact H.
  - subst w'. revert w. induction msgs as [|msg msgs IH]; intros w user H.
    + left. exact H.
    + rewrite deliver_cons in H.
      destruct (IH _ _ H) as [H1 | (msg' & Hin & ->)].
      * destruct (onMessage_new_profiles msg w user H1) as [H2 | ->].
        -- left. exact H2.
        -- right. exists msg. split; [left; reflexivity | reflexivity].
      * right. exists msg'. split; [right; exact Hin | reflexivity].
Qed.

End Profiles.

(** ** The further theorems at concrete inputs *)

Lemma other_senders_untouched_witness :
  historyOf bob (fst (onMessage keepNonAscii brokenStoreEnv helloMessage
                                (fst (onMessage keepNonAscii calmEnv bobMessage
                                                emptyWorld))))
  = historyOf bob (fst (onMessage keepNonAscii calmEnv bobMessage emptyWorld)).
Proof.
  apply (@other_senders_untouched keepNonAscii brokenStoreEnv helloMessage
           (fst (onMessage keepNonAscii calmEnv bobMessage emptyWorld)) bob).
  intros H. vm_compute in H. discriminate H.
Defined.

Lemma deliver_per_sender_witness :
  let msgs := [helloMessage; bobMessage; hiMessage] in
  let w' := deliver keepNonAscii calmEnv msgs emptyWorld in
  let own := filter (fun msg => strictEq (msg_from msg) bob) msgs in
  length (repliesTo bob (skipn (length (trace emptyWorld)) (trace w')))
  = length own
  /\ length (historyOf bob w')
     = length (historyOf bob emptyWorld) + 2 * length own.
Proof.
  destruct (@deliver_per_sender keepNonAscii calmEnv bob
              [helloMessage; bobMessage; hiMessage] emptyWorld
              (fun n => eq_refl)) as (L & _ & H).
  split; [exact L | exact H].
Defined.

Lemma human_turn_durable_witness :
  exists later,
    historyOf alice (fst (onMessage keepNonAscii profileStoreDownEnv
                                    helloMessage emptyWorld))
    = mkTurn (lit "hello there") Human 0%Z :: later.
Proof.
  exact (proj1 (@human_turn_durable keepNonAscii profileStoreDownEnv
                  helloMessage emptyWorld eq_refl)).
Defined.

Lemma one_document_per_sender_kept_witness :
  OneDocumentPerSender
    (deliver keepNonAscii calmEnv [helloMessage; bobMessage; hiMessage]
             emptyWorld).
Proof.
  apply one_document_per_sender_kept.
  intros s. simpl. lia.
Defined.

Lemma chronological_kept_witness :
  MonotoneClock calmEnv
  /\ Chronological calmEnv
       (deliver keepNonAscii calmEnv [helloMessage; bobMessage; hiMessage]
                emptyWorld).
Proof.
  assert (clock : MonotoneClock calmEnv).
  { intros a b H. change (Z.of_nat a <= Z.of_nat b)%Z. lia. }
  split; [exact clock|].
  refine (@chronological_kept keepNonAscii calmEnv
            [helloMessage; bobMessage; hiMessage] emptyWorld clock _).
  intros c H. destruct H.
Defined.

Lemma append_then_read_witness :
  exists dropped older,
    snd (getConversationHistory calmEnv alice
           (fst (updateConversationHistory calmEnv alice (lit "ping") Human
                                           emptyWorld)))
    = Returned (older ++ [lit "Human: ping"])
    /\ [] = dropped ++ older.
Proof.
  destruct (@append_then_read calmEnv alice (lit "ping") Human emptyWorld
              eq_refl eq_refl) as (dropped & older & R & S & _).
  exists dropped, older. split; [exact R | exact S].
Defined.

Lemma getUserProfile_idempotent_witness :
  exists user,
    snd (getUserProfile calmEnv alice emptyWorld) = Returned user
    /\ sender user = alice
    /\ profileOf alice (fst (getUserProfile calmEnv alice emptyWorld))
       = Some user.
Proof.
  destruct (@getUserProfile_idempotent calmEnv alice emptyWorld
              (fun n => eq_refl)) as (user & R & S & P & _).
  exists user. split; [exact R|]. split; [exact S | exact P].
Defined.

Lemma prompt_context_bounded_witness :
  exists dropped kept,
    [] = dropped ++ kept
    /\ promptsIn (emittedBy (onMessage keepNonAscii calmEnv helloMessage)
                            emptyWorld)
       = [buildPrompt (kept ++ [lit "Human: hello there";
                                lit "Human: hello there"])].
Proof.
  destruct (@prompt_context_bounded keepNonAscii calmEnv helloMessage
              emptyWorld (fun n _ => eq_refl) eq_refl)
    as (dropped & kept & E & _ & P & _).
  exists dropped, kept. split; [exact E | exact P].
Defined.

Lemma blank_message_reaches_gateway_witness :
  trim (msg_body blankMessage) = []
  /\ exists older,
       promptsIn (emittedBy (onMessage keepNonAscii calmEnv blankMessage)
                            emptyWorld)
       = [buildPrompt (older ++ [lit "Human: "; lit "Human: "])].
Proof.
  exact (@blank_message_reaches_gateway keepNonAscii calmEnv blankMessage
           emptyWorld (fun n _ => eq_refl) eq_refl).
Defined.

Lemma stored_message_is_trimmed_witness :
  exists stored ws1 ws2,
    msg_body hiMessage = ws1 ++ stored ++ ws2 /\ trim stored = stored.
Proof.
  destruct (@stored_message_is_trimmed keepNonAscii calmEnv hiMessage
              emptyWorld eq_refl)
    as (stored & ws1 & ws2 & _ & _ & _ & E & _ & _ & _ & _ & T).
  exists stored, ws1, ws2. split; [exact E | exact T].
Defined.

Lemma who_are_you_any_case_witness :
  repliesIn (emittedBy (onMessage keepNonAscii calmEnv shoutMessage)
                       emptyWorld)
  = [whoAreYouReply].
Proof.
  exact (proj1 (@who_are_you_any_case keepNonAscii calmEnv shoutMessage
                  emptyWorld (lit "hey, ") (lit "WHO ARE YOU")
                  (lit " really?") (fun n => eq_refl)
                  eq_refl eq_refl eq_refl)).
Defined.

Lemma log_lines_of_a_run_witness :
  exists reply errors,
    logsIn (emittedBy (onMessage keepNonAscii timeoutEnv helloMessage)
                      emptyWorld)
    = [(Info, lit "Received message from " ++ alice ++ lit ": "
                ++ lit "hello there")]
      ++ errors
      ++ [(Info, lit "Sent response to " ++ alice ++ lit ": " ++ reply)].
Proof.
  destruct (@log_lines_of_a_run keepNonAscii timeoutEnv helloMessage
              emptyWorld (fun n => eq_refl))
    as (reply & errors & _ & L & _).
  exists reply, errors. exact L.
Defined.

Lemma gateway_success_reply_witness :
  repliesIn (emittedBy (onMessage keepNonAscii calmEnv helloMessage)
                       emptyWorld)
  = [lit "Sure."].
Proof.
  exact (proj1 (@gateway_success_reply keepNonAscii calmEnv helloMessage
                  emptyWorld (lit " Sure. ") [] (fun n => eq_refl) eq_refl
                  (fun n prompt => eq_refl))).
Defined.

Lemma previous_exchange_in_prompt_witness :
  exists reply older,
    promptsIn (emittedBy (onMessage keepNonAscii calmEnv helloMessage)
                 (fst (onMessage keepNonAscii calmEnv hiMessage emptyWorld)))
    = [buildPrompt (older ++ [lit "Human: Hi";
                              lit "Bot: " ++ reply;
                              lit "Human: hello there";
                              lit "Human: hello there"])].
Proof.
  destruct (@previous_exchange_in_prompt keepNonAscii calmEnv hiMessage
              helloMessage emptyWorld (fun n => eq_refl) eq_refl eq_refl)
    as (reply & older & _ & P).
  exists reply, older. exact P.
Defined.
